(** * refresh_and_export.py: the TNDailySales refresh pipeline

    A shallow embedding of the script's stages (header normalisation,
    cleaning, aggregation, chart building) and the properties of the
    specification that can be stated over it.

    Conventions of the model.
    - A Python [str] is the list of its code points ([list N]); [u] turns an
      ASCII literal into one.
    - A data frame is the list of its rows, a row being the dictionary from
      column name to cell ([gmap]).  Column-wise pandas operations are maps
      over the rows.
    - Numbers are exact rationals in canonical form ([Qc]): the rounding of
      binary floating point is outside the model.
    - pandas is read with its object-dtype semantics (pandas 1.x and 2.x):
      a missing value is the float [nan], and [astype(str)] applies Python's
      [str] to every element.
    - What pandas' own parsers and formatters do ([to_datetime] on a string,
      [to_numeric] on a string, [str] of a number) is a parameter of the
      development, see [Lib]. *)

From Stdlib Require Import String Ascii QArith Qcanon.
From stdpp Require Import gmap list sorting numbers.

Local Open Scope N_scope.

(** ** Python strings *)

Abbreviation pystr := (list N).

Definition u (s : string) : pystr :=
  map N_of_ascii (list_ascii_of_string s).
Arguments u s%_string.

Module Py.

(** [str.isspace] on one code point (CPython's [_PyUnicode_IsWhitespace]). *)
Definition is_space (c : N) : bool :=
  ((9 <=? c) && (c <=? 13)) || ((28 <=? c) && (c <=? 32))
  || (c =? 133) || (c =? 160) || (c =? 5760)
  || ((8192 <=? c) && (c <=? 8202))
  || (c =? 8232) || (c =? 8233) || (c =? 8239) || (c =? 8287)
  || (c =? 12288).

Fixpoint lstrip (s : pystr) : pystr :=
  match s with
  | c :: s' => if is_space c then lstrip s' else s
  | [] => []
  end.

Definition rstrip (s : pystr) : pystr := reverse (lstrip (reverse s)).

(** [s.strip()] *)
Definition strip (s : pystr) : pystr := rstrip (lstrip s).

(** [s.lower()] on one code point.  The ASCII capitals are shifted; the
    Kelvin sign U+212A is the one other code point whose lower case is
    made of ASCII letters (it is [k]).  Every other code point lower-cases
    to text outside ASCII, which no key of [rename_map] contains, and is
    kept as it is: the lookup is decided the same way. *)
Definition lower_char (c : N) : N :=
  if (65 <=? c) && (c <=? 90) then c + 32
  else if c =? 8490 then 107
  else c.

Definition lower (s : pystr) : pystr := map lower_char s.

(** [s.replace(c, "")] for a one-character pattern [c]. *)
Definition remove_char (c : N) (s : pystr) : pystr :=
  filter (λ x, x ≠ c) s.

(** Comparison of two strings, code point by code point. *)
Fixpoint leb (a b : pystr) : bool :=
  match a, b with
  | [], _ => true
  | _ :: _, [] => false
  | x :: a', y :: b' => (x <? y) || ((x =? y) && leb a' b')
  end.

End Py.

(** ** Stage 2: header normalisation (lines 35-60) *)

Definition BOM : N := 65279.
Definition NBSP : N := 160.

(** Lines 35-40: strip, then delete byte-order marks and no-break spaces. *)
Definition fix_column_name (h : pystr) : pystr :=
  Py.remove_char NBSP (Py.remove_char BOM (Py.strip h)).

Definition rename_map : gmap pystr pystr :=
  list_to_map
    [ (u "channelname", u "ChannelName");
      (u "productcategory", u "ProductCategory");
      (u "date", u "Date");
      (u "productname", u "ProductName");
      (u "netweightkgs", u "NetWeightKGs");
      (u "salescategory", u "SalesCategory");
      (u "paymenttype", u "PaymentType");
      (u "customername", u "CustomerName") ].

Definition canonical_names : list pystr :=
  [ u "ChannelName"; u "ProductCategory"; u "Date"; u "ProductName";
    u "NetWeightKGs"; u "SalesCategory"; u "PaymentType"; u "CustomerName" ].

(** Line 57: [col.lower().replace(" ", "").replace("_", "")]. *)
Definition norm_key (col : pystr) : pystr :=
  Py.remove_char 95 (Py.remove_char 32 (Py.lower col)).

(** [rename_map.get(key, col)] *)
Definition canonical (col : pystr) : pystr :=
  default col (rename_map !! norm_key col).

(** Lines 55-58: the dictionary [clean_cols], filled in column order. *)
Definition clean_cols (cols : list pystr) : gmap pystr pystr :=
  foldl (λ d col, <[col := canonical col]> d) ∅ cols.

(** [df.rename(columns=d)]: a label found in [d] is replaced, any other is
    kept; labels are not required to stay distinct. *)
Definition rename (d : gmap pystr pystr) (cols : list pystr) : list pystr :=
  map (λ c, default c (d !! c)) cols.

Definition normalize_columns (raw : list pystr) : list pystr :=
  let cols := map fix_column_name raw in
  rename (clean_cols cols) cols.

(** ** Cells and rows *)

(** A [pandas.Timestamp]: a calendar date and the time of day. *)
Record Timestamp := { year : Z; month : Z; day : Z; nanos : Z }.

Inductive cell :=
| NaN                      (* float nan, the missing-value marker *)
| NaT                      (* the missing datetime *)
| Str (s : pystr)
| Num (x : Qc)
| Stamp (t : Timestamp)
| DayV (y m d : Z).        (* a [datetime.date] *)

Global Instance Timestamp_eq_dec : EqDecision Timestamp.
Proof. solve_decision. Defined.
Global Instance cell_eq_dec : EqDecision cell.
Proof. solve_decision. Defined.

Abbreviation row := (gmap pystr cell).

Definition ChannelName : pystr := u "ChannelName".
Definition ProductCategory : pystr := u "ProductCategory".
Definition ProductName : pystr := u "ProductName".
Definition SalesCategory : pystr := u "SalesCategory".
Definition Date : pystr := u "Date".
Definition NetWeightKGs : pystr := u "NetWeightKGs".
Definition Month : pystr := u "Month".
Definition Day : pystr := u "Day".

(** [df[c]] read at one row.  The pipeline reads a column only after the
    backfill of lines 68-70 has made sure that it exists. *)
Definition col (c : pystr) (r : row) : cell := default NaN (r !! c).

(** [df[c] = ...], the new column computed row by row. *)
Definition assign (c : pystr) (f : row → cell) (df : list row) : list row :=
  map (λ r, <[c := f r]> r) df.

Definition isna (c : cell) : bool :=
  match c with NaN | NaT => true | _ => false end.

(** [.fillna(v)] *)
Definition fillna (v c : cell) : cell := if isna c then v else c.

(** [.str.strip()]: an element that is not a string becomes nan. *)
Definition str_strip (c : cell) : cell :=
  match c with Str s => Str (Py.strip s) | _ => NaN end.

(** What the pipeline takes from pandas' and Python's parsers and
    formatters.  [parse_datetime] is given the whole column as well, since
    [to_datetime] guesses the format from it. *)
Record Lib := {
  parse_datetime : list cell → pystr → option Timestamp;
  datetime_of_number : Qc → option Timestamp;
  parse_numeric : pystr → option Qc;
  str_of : cell → pystr
}.

Definition of_option {A} (f : A → cell) (d : cell) (o : option A) : cell :=
  match o with Some a => f a | None => d end.

(** [to_period("M").astype(str)] of one timestamp: [YYYY-MM], the years of
    a pandas timestamp having four digits. *)
Definition digit (n : Z) : N := 48 + Z.to_N (n `mod` 10).

Definition month_label (t : Timestamp) : pystr :=
  [ digit (year t `div` 1000); digit (year t `div` 100);
    digit (year t `div` 10); digit (year t); 45;
    digit (month t `div` 10); digit (month t) ].

(** [drop_duplicates()] and [unique()]: an element equal to an earlier one
    is dropped, the first occurrence stays in place. *)
Fixpoint unique_from {A} `{EqDecision A} (seen l : list A) : list A :=
  match l with
  | [] => []
  | x :: l' =>
      if decide (x ∈ seen) then unique_from seen l'
      else x :: unique_from (x :: seen) l'
  end.

Definition unique {A} `{EqDecision A} (l : list A) : list A := unique_from [] l.

(** ** Stage 3: the cleaning pipeline (lines 63-93) *)

Section Cleaning.

Variable L : Lib.

(** [pd.to_datetime(column, errors="coerce")] at one element: a timestamp
    is kept, a date is taken at midnight, a string or a number is converted
    by the library, and what cannot be converted becomes [NaT]. *)
Definition to_datetime (column : list cell) (c : cell) : cell :=
  match c with
  | Stamp t => Stamp t
  | Str s => of_option Stamp NaT (parse_datetime L column s)
  | Num x => of_option Stamp NaT (datetime_of_number L x)
  | DayV y m d => Stamp {| year := y; month := m; day := d; nanos := 0 |}
  | NaN | NaT => NaT
  end.

(** [pd.to_numeric(column, errors="coerce")] at one element: a number is
    kept, a string is parsed, anything else is coerced to nan. *)
Definition to_numeric (c : cell) : cell :=
  match c with
  | Num x => Num x
  | Str s => of_option Num NaN (parse_numeric L s)
  | NaN | NaT | Stamp _ | DayV _ _ _ => NaN
  end.

(** [.astype(str)]: Python's [str] of every element, nan included. *)
Definition astype_str (c : cell) : cell :=
  match c with
  | Str s => Str s
  | NaN => Str (u "nan")
  | NaT => Str (u "NaT")
  | Num _ | Stamp _ | DayV _ _ _ => Str (str_of L c)
  end.

Definition required : list pystr :=
  [ChannelName; ProductName; Date; NetWeightKGs; ProductCategory; SalesCategory].

(** Lines 68-70.  A column is missing from a table when it is missing from
    its rows; on a rectangular table the test is the same for every row. *)
Definition backfill (df : list row) : list row :=
  foldl (λ df c, map (λ r, if decide (r !! c = None) then <[c := NaN]> r else r) df)
        df required.

(** Line 73. *)
Definition fix_date (df : list row) : list row :=
  let column := map (col Date) df in
  assign Date (λ r, to_datetime column (col Date r)) df.

(** Line 76. *)
Definition fix_numeric (df : list row) : list row :=
  assign NetWeightKGs (λ r, fillna (Num 0%Qc) (to_numeric (col NetWeightKGs r))) df.

Definition text_columns : list pystr :=
  [ChannelName; ProductCategory; ProductName; SalesCategory].

(** Lines 80-81. *)
Definition fix_text (df : list row) : list row :=
  foldl (λ df c, assign c (λ r, str_strip (fillna (Str []) (astype_str (col c r)))) df)
        df text_columns.

(** Lines 84-86. *)
Definition drop_invalid (df : list row) : list row :=
  let df1 := filter (λ r, isna (col Date r) = false) df in
  let df2 := filter (λ r, col ProductName r ≠ Str []) df1 in
  filter (λ r, col ChannelName r ≠ Str []) df2.

(** Line 89. *)
Definition drop_duplicates (df : list row) : list row := unique df.

(** Lines 92-93.  In the script the [Date] column is a datetime column
    here, so its elements are timestamps or [NaT]. *)
Definition month_of (c : cell) : cell :=
  match c with Stamp t => Str (month_label t) | _ => Str (u "NaT") end.

Definition day_of (c : cell) : cell :=
  match c with Stamp t => DayV (year t) (month t) (day t) | _ => NaT end.

Definition derive (df : list row) : list row :=
  assign Day (λ r, day_of (col Date r))
    (assign Month (λ r, month_of (col Date r)) df).

Definition clean (df : list row) : list row :=
  derive (drop_duplicates (drop_invalid (fix_text (fix_numeric (fix_date (backfill df)))))).

End Cleaning.

(** *** The cleaning stage seen row by row

    Every step of the stage acts on one row at a time, given the [Date]
    column that [to_datetime] reads; [clean_rows] below proves that the
    stage is these functions mapped and filtered over the table. *)

Section CleaningRows.

Variable L : Lib.

Definition backfill_row (r : row) : row :=
  foldl (λ r c, if decide (r !! c = None) then <[c := NaN]> r else r) r required.

Definition coerce_row (column : list cell) (r : row) : row :=
  let r0 := backfill_row r in
  let r1 := <[Date := to_datetime L column (col Date r0)]> r0 in
  let r2 := <[NetWeightKGs := fillna (Num 0%Qc) (to_numeric L (col NetWeightKGs r1))]> r1 in
  foldl (λ r c, <[c := str_strip (fillna (Str []) (astype_str L (col c r)))]> r)
        r2 text_columns.

Definition keep_row (r : row) : Prop :=
  (col ChannelName r ≠ Str [] ∧ col ProductName r ≠ Str [])
  ∧ isna (col Date r) = false.

Definition derive_row (r : row) : row :=
  let r1 := <[Month := month_of (col Date r)]> r in
  <[Day := day_of (col Date r1)]> r1.

End CleaningRows.

(** What holds of every row of a cleaned table. *)
Record cleaned_row (r : row) : Prop := {
  cr_date : ∃ t, r !! Date = Some (Stamp t);
  cr_weight : ∃ x, r !! NetWeightKGs = Some (Num x);
  cr_text : ∀ c, c ∈ text_columns → ∃ s, r !! c = Some (Str s) ∧ Py.strip s = s;
  cr_product : col ProductName r ≠ Str [];
  cr_channel : col ChannelName r ≠ Str [];
  cr_month : r !! Month = Some (month_of (col Date r));
  cr_day : r !! Day = Some (day_of (col Date r))
}.

(** ** Stage 4: aggregations and charts (lines 102-244) *)

Definition qsum (l : list Qc) : Qc := foldr Qcplus 0%Qc l.

(** The [NetWeightKGs] of a row as [.sum()] takes it: nan is skipped. *)
Definition weight (r : row) : Qc :=
  match col NetWeightKGs r with Num x => x | _ => 0%Qc end.

(** Line 102. *)
Definition total_sales (df : list row) : Qc := qsum (map weight df).

(** The group label of a row.  [groupby] leaves out the rows whose label is
    missing; in a cleaned table every grouping column holds text. *)
Definition label_of (c : pystr) (r : row) : option pystr :=
  match r !! c with Some (Str s) => Some s | _ => None end.

Fixpoint insert_by {A} (le : A → A → bool) (x : A) (l : list A) : list A :=
  match l with
  | [] => [x]
  | y :: l' => if le x y then x :: l else y :: insert_by le x l'
  end.

(** A stable sort: of two elements that compare equal, the earlier stays
    first. *)
Definition sort_by {A} (le : A → A → bool) (l : list A) : list A :=
  foldr (insert_by le) [] l.

(** Python's [sorted] on strings. *)
Definition sorted (l : list pystr) : list pystr := sort_by Py.leb l.

(** The order of [sorted] on distinct strings: strictly ascending by code
    points. *)
Definition str_lt (a b : pystr) : Prop := Py.leb a b = true ∧ a ≠ b.

(** A [Series] indexed by text: the (label, value) pairs in index order. *)
Abbreviation Series := (list (pystr * Qc)).

(** [df.groupby(c)["NetWeightKGs"].sum()]: one entry per label, the labels
    in ascending order. *)
Definition groupby_sum (c : pystr) (df : list row) : Series :=
  map (λ k, (k, qsum (map weight (filter (λ r, label_of c r = Some k) df))))
      (sorted (unique (omap (label_of c) df))).

(** [.sort_values(ascending=False)]; equal values keep their index order. *)
Definition sort_values_desc (s : Series) : Series :=
  sort_by (λ a b, bool_decide (Qcle b.2 a.2)) s.

(** [.reindex(order)]: a label absent from the series gets nan ([None]). *)
Definition reindex (order : list pystr) (s : Series) : list (pystr * option Qc) :=
  map (λ k, (k, (list_to_map s : gmap pystr Qc) !! k)) order.

Inductive chart_kind := Bar | Line.

Record Chart := {
  kind : chart_kind;
  xs : list pystr;
  ys : list (option Qc);
  title : pystr
}.

(** Lines 107-112. *)
Definition fig_channel (df : list row) : Chart :=
  let t := sort_values_desc (groupby_sum ChannelName df) in
  {| kind := Bar; xs := t.*1; ys := Some <$> t.*2;
     title := u "Sales Volume by Channel (KGs)" |}.

(** Lines 118-125. *)
Definition fig_month (df : list row) : Chart :=
  let month_order := sorted (unique (omap (label_of Month) df)) in
  let t := reindex month_order (groupby_sum Month df) in
  {| kind := Line; xs := t.*1; ys := t.*2;
     title := u "Monthly Sales Trend (KGs)" |}.

(** Lines 131-136. *)
Definition fig_salescat (df : list row) : Chart :=
  let t := groupby_sum SalesCategory df in
  {| kind := Bar; xs := t.*1; ys := Some <$> t.*2;
     title := u "Sales Category Breakdown (KGs)" |}.

(** Lines 142-147. *)
Definition fig_product (df : list row) : Chart :=
  let t := groupby_sum ProductName df in
  {| kind := Bar; xs := t.*1; ys := Some <$> t.*2;
     title := u "Products Ranked by Sales Weight" |}.

(** *** The interactive dashboard (lines 155-256) *)

Record Trace := { tx : list pystr; ty : list Qc; name : pystr }.

(** One dropdown entry: its label and the [x] and [y] lists of [args],
    one array per trace. *)
Record Button := {
  label : pystr;
  args_x : list (list pystr);
  args_y : list (list Qc)
}.

Record Figure := { traces : list Trace; buttons : list Button }.

Inductive exn := IndexError.

(** Lines 169-170. *)
Definition filter_month (df : list row) (m : pystr) : list row :=
  filter (λ r, col Month r = Str m) df.

(** The arrays of a filtered panel, as lines 178-179 (and 230, 236) write
    them: [x] is the index of the grouped sums, [y] the values of the
    grouped sums sorted in descending order. *)
Definition panel_x (c : pystr) (dff : list row) : list pystr :=
  (groupby_sum c dff).*1.

Definition panel_y (c : pystr) (dff : list row) : list Qc :=
  (sort_values_desc (groupby_sum c dff)).*2.

Definition panel_columns : list pystr := [ChannelName; SalesCategory; ProductName].

(** Lines 220-244. *)
Definition button_of (df : list row) (m : pystr) : Button :=
  let dff := filter_month df m in
  {| label := m;
     args_x := [ panel_x ChannelName dff; panel_x SalesCategory dff;
                 panel_x ProductName dff; (groupby_sum Month df).*1 ];
     args_y := [ panel_y ChannelName dff; panel_y SalesCategory dff;
                 panel_y ProductName dff; (groupby_sum Month df).*2 ] |}.

(** Lines 155-256.  [unique_months[0]] raises [IndexError] on an empty
    list. *)
Definition fig_filtered (df : list row) : exn + Figure :=
  let unique_months := sorted (unique (omap (label_of Month) df)) in
  match unique_months !! 0%nat with
  | None => inl IndexError
  | Some m0 =>
      let initial := filter_month df m0 in
      inr {| traces :=
               [ {| tx := panel_x ChannelName initial;
                    ty := panel_y ChannelName initial; name := u "Channel" |};
                 {| tx := panel_x SalesCategory initial;
                    ty := panel_y SalesCategory initial; name := u "SalesCategory" |};
                 {| tx := panel_x ProductName initial;
                    ty := panel_y ProductName initial; name := u "Product" |};
                 {| tx := (groupby_sum Month df).*1;
                    ty := (groupby_sum Month df).*2; name := u "Trend" |} ];
             buttons := map (button_of df) unique_months |}
  end.

(** Plotly's [update] method with a data dictionary: trace [i] takes the
    [i]-th array of [x] and the [i]-th array of [y]. *)
Definition update (b : Button) (fig : Figure) : Figure :=
  {| traces :=
       imap (λ i t, {| tx := default (tx t) (args_x b !! i);
                       ty := default (ty t) (args_y b !! i);
                       name := name t |}) (traces fig);
     buttons := buttons fig |}.

Record Dashboards := {
  d_channel : Chart;
  d_month : Chart;
  d_salescat : Chart;
  d_product : Chart;
  d_interactive : Figure
}.

(** The chart-building stage as a whole, in the order of the script. *)
Definition build_charts (df : list row) : exn + Dashboards :=
  let c1 := fig_channel df in
  let c2 := fig_month df in
  let c3 := fig_salescat df in
  let c4 := fig_product df in
  match fig_filtered df with
  | inl e => inl e
  | inr f => inr {| d_channel := c1; d_month := c2; d_salescat := c3;
                    d_product := c4; d_interactive := f |}
  end.

(** ** A concrete library instance for the examples

    Plain decimal numerals and ISO [YYYY-MM-DD] dates, which pandas reads
    the same way; any other string is unreadable here.  The example tables
    hold no number in [Date] and no number or date in a text column, so
    [datetime_of_number] and [str_of] are never called on them. *)

Module Iso.

Definition is_digit (c : N) : bool := (48 <=? c) && (c <=? 57).

Fixpoint digits_val (acc : N) (s : pystr) : option N :=
  match s with
  | [] => Some acc
  | c :: s' => if is_digit c then digits_val (10 * acc + (c - 48)) s' else None
  end.

Definition parse_nat (s : pystr) : option N :=
  match s with [] => None | _ => digits_val 0 s end.

Fixpoint split_at (c : N) (s : pystr) : pystr * option pystr :=
  match s with
  | [] => ([], None)
  | x :: s' =>
      if x =? c then ([], Some s')
      else let '(a, b) := split_at c s' in (x :: a, b)
  end.

Definition parse_unsigned (s : pystr) : option Qc :=
  match split_at 46 s with
  | (ip, None) => n ← parse_nat ip; Some (Q2Qc (inject_Z (Z.of_N n)))
  | (ip, Some fp) =>
      n ← parse_nat ip; f ← parse_nat fp;
      Some (Q2Qc (Qmake (Z.of_N (n * 10 ^ N.of_nat (length fp) + f))
                        (Pos.pow 10 (Pos.of_nat (length fp)))))
  end.

Definition parse_decimal (s : pystr) : option Qc :=
  match s with
  | 45 :: b => Qcopp <$> parse_unsigned b
  | 43 :: b => parse_unsigned b
  | _ => parse_unsigned s
  end.

Definition leap (y : Z) : bool :=
  ((y `mod` 4 =? 0) && negb (y `mod` 100 =? 0) || (y `mod` 400 =? 0))%Z.

Definition days_in_month (y m : Z) : Z :=
  (if m =? 2 then (if leap y then 29 else 28)
   else if (m =? 4) || (m =? 6) || (m =? 9) || (m =? 11) then 30 else 31)%Z.

Definition parse_date (s : pystr) : option Timestamp :=
  match s with
  | [y1; y2; y3; y4; 45; m1; m2; 45; d1; d2] =>
      y ← parse_nat [y1; y2; y3; y4];
      m ← parse_nat [m1; m2];
      d ← parse_nat [d1; d2];
      let '(y, m, d) := (Z.of_N y, Z.of_N m, Z.of_N d) in
      if ((1 <=? m) && (m <=? 12) && (1 <=? d) && (d <=? days_in_month y m))%Z
      then Some {| year := y; month := m; day := d; nanos := 0 |}
      else None
  | _ => None
  end.

Definition lib : Lib :=
  {| parse_datetime := λ _ s, parse_date (Py.strip s);
     datetime_of_number := λ _, None;
     parse_numeric := λ s, parse_decimal (Py.strip s);
     str_of := λ _, u "?" |}.

End Iso.

(** ** Example tables *)

Definition qz (z : Z) : Qc := Q2Qc (inject_Z z).

Definition text (s : string) : cell := Str (u s).
Arguments text s%_string.

Definition raw_row (channel product date weight : cell) : row :=
  <[ChannelName := channel]> (<[ProductName := product]>
    (<[Date := date]> (<[NetWeightKGs := weight]> ∅))).

(** Two channels in January, one sale in February with an unreadable
    weight, one row with an unreadable date. *)
Definition example_table : list row :=
  [ raw_row (text "A") (text "P") (text "2024-01-05") (text "1");
    raw_row (text " B ") (text "P") (text "2024-01-06") (text "5");
    raw_row (text "C") (text "Q") (text "2024-02-06") (text "abc");
    raw_row (text "C") (text "P") (text "not-a-date") (text "2.5") ].

Definition negative_weight_table : list row :=
  [ raw_row (text "A") (text "P") (text "2024-01-05") (Num (qz (-5))) ].

Definition missing_channel_table : list row :=
  [ raw_row NaN (text "P") (text "2024-01-05") (Num (qz 5)) ].

(** Two rows that differ in a [Month] column of the input only. *)
Definition month_column_table : list row :=
  [ <[Month := text "x"]> (raw_row (text "A") (text "P") (text "2024-01-05") (Num (qz 5)));
    <[Month := text "y"]> (raw_row (text "A") (text "P") (text "2024-01-05") (Num (qz 5))) ].

(** February outweighs January. *)
Definition two_months_table : list row :=
  [ raw_row (text "A") (text "P") (text "2024-02-03") (Num (qz 100));
    raw_row (text "A") (text "P") (text "2024-01-05") (Num (qz 1)) ].

(** One sale with a column the pipeline does not use. *)
Definition extra_column_table : list row :=
  [ <[u "PaymentType" := text "Cash"]>
      (raw_row (text "A") (text "P") (text "2024-01-05") (text "1")) ].

(** The dashboard of the example table and its February button. *)
Definition example_figure : Figure :=
  match fig_filtered (clean Iso.lib example_table) with
  | inr f => f
  | inl _ => {| traces := []; buttons := [] |}
  end.

Definition example_button : Button :=
  button_of (clean Iso.lib example_table) (u "2024-02").

(** * Properties *)

(** ** Strings *)

Module PyFacts.
Import Py.

Lemma lstrip_idemp (s : pystr) : lstrip (lstrip s) = lstrip s.
Proof.
  induction s as [|c s IH]; [done |]. simpl.
  destruct (is_space c) eqn:E; [done |]. simpl. by rewrite E.
Qed.

Lemma lstrip_snoc (s : pystr) (c : N) :
  is_space c = false → lstrip (s ++ [c]) = lstrip s ++ [c].
Proof.
  intros Hc. induction s as [|x s IH]; simpl.
  - by rewrite Hc.
  - by destruct (is_space x).
Qed.

Lemma rstrip_cons (c : N) (s : pystr) :
  is_space c = false → rstrip (c :: s) = c :: rstrip s.
Proof.
  intros Hc. unfold rstrip. rewrite reverse_cons, lstrip_snoc by done.
  by rewrite reverse_app.
Qed.

Lemma rstrip_idemp (s : pystr) : rstrip (rstrip s) = rstrip s.
Proof.
  unfold rstrip. by rewrite reverse_involutive, lstrip_idemp.
Qed.

Lemma lstrip_head (s : pystr) :
  lstrip s = [] ∨ ∃ c t, lstrip s = c :: t ∧ is_space c = false.
Proof.
  induction s as [|c s IH]; [by left |]. simpl.
  destruct (is_space c) eqn:E; [done |]. right. eauto.
Qed.

Lemma strip_idemp (s : pystr) : strip (strip s) = strip s.
Proof.
  unfold strip. destruct (lstrip_head s) as [-> | (c & t & -> & Hc)].
  - done.
  - rewrite rstrip_cons by done. simpl. rewrite Hc.
    rewrite <- rstrip_cons by done. apply rstrip_idemp.
Qed.

Lemma leb_refl (a : pystr) : leb a a = true.
Proof.
  induction a as [|x a IH]; [done |]. simpl.
  rewrite N.eqb_refl, IH. by rewrite orb_true_r.
Qed.

Lemma leb_total (a b : pystr) : leb a b = true ∨ leb b a = true.
Proof.
  revert b. induction a as [|x a IH]; intros [|y b]; simpl; auto.
  destruct (N.ltb_spec x y), (N.ltb_spec y x), (N.eqb_spec x y),
    (N.eqb_spec y x); simpl; auto; lia.
Qed.

Lemma leb_trans (a b c : pystr) :
  leb a b = true → leb b c = true → leb a c = true.
Proof.
  revert b c. induction a as [|x a IH]; intros [|y b] [|z c]; simpl; auto;
    try discriminate.
  destruct (N.ltb_spec x y), (N.ltb_spec y z), (N.ltb_spec x z),
    (N.eqb_spec x y), (N.eqb_spec y z), (N.eqb_spec x z);
    simpl; auto; try lia; try discriminate.
  apply IH.
Qed.

Lemma leb_antisym (a b : pystr) :
  leb a b = true → leb b a = true → a = b.
Proof.
  revert b. induction a as [|x a IH]; intros [|y b]; simpl; auto;
    try discriminate.
  destruct (N.ltb_spec x y), (N.ltb_spec y x), (N.eqb_spec x y),
    (N.eqb_spec y x); simpl; try lia; try discriminate.
  intros. subst. f_equal. by apply IH.
Qed.

End PyFacts.

(** ** [unique] and [sort_by] *)

Section Unique.
Context {A : Type} `{EqDecision A}.
Implicit Types (l seen : list A).

Lemma elem_of_unique_from seen l x :
  x ∈ unique_from seen l ↔ x ∈ l ∧ x ∉ seen.
Proof.
  revert seen. induction l as [|y l IH]; intros seen; simpl.
  - split; [by intros ?%elem_of_nil | by intros [?%elem_of_nil _]].
  - destruct (decide (y ∈ seen)) as [Hy|Hy].
    + rewrite IH, elem_of_cons. intuition congruence.
    + rewrite !elem_of_cons, IH, elem_of_cons.
      destruct (decide (x = y)); intuition congruence.
Qed.

Lemma elem_of_unique l x : x ∈ unique l ↔ x ∈ l.
Proof.
  unfold unique. rewrite elem_of_unique_from.
  split; [by intros [? _] | intros ?; split; [done | apply not_elem_of_nil]].
Qed.

Lemma NoDup_unique_from seen l : NoDup (unique_from seen l).
Proof.
  revert seen. induction l as [|y l IH]; intros seen; simpl.
  - constructor.
  - destruct (decide (y ∈ seen)); [apply IH |].
    constructor; [| apply IH].
    rewrite elem_of_unique_from, elem_of_cons. intuition congruence.
Qed.

Lemma NoDup_unique l : NoDup (unique l).
Proof. apply NoDup_unique_from. Qed.

Lemma unique_from_NoDup seen l :
  NoDup l → (∀ x, x ∈ l → x ∉ seen) → unique_from seen l = l.
Proof.
  revert seen. induction l as [|y l IH]; intros seen Hnd Hs; [done |].
  simpl. inversion Hnd as [|? ? Hy Hl]; subst.
  rewrite decide_False by (apply Hs; by left).
  f_equal. apply IH; [done |].
  intros x Hx [->|?]%elem_of_cons; [done |].
  by apply (Hs x); [right |].
Qed.

(** Dropping duplicates changes nothing exactly when there are none. *)
Lemma unique_id_iff l : unique l = l ↔ NoDup l.
Proof.
  split.
  - intros <-. apply NoDup_unique.
  - intros Hnd. apply unique_from_NoDup; [done |].
    intros x _. apply not_elem_of_nil.
Qed.

End Unique.

Lemma default_lookup_elem_of {A} (d : A) (l : list A) (i : nat) :
  (i < length l)%nat → default d (l !! i) ∈ l.
Proof.
  intros Hi. destruct (lookup_lt_is_Some_2 l i Hi) as [x Hx].
  rewrite Hx. simpl. by eapply list_elem_of_lookup_2.
Qed.

Section Sorting.
Context {A : Type} (le : A → A → bool).

Lemma insert_by_Permutation x l : insert_by le x l ≡ₚ x :: l.
Proof.
  induction l as [|y l IH]; simpl; [done |].
  destruct (le x y); [done |]. rewrite IH. apply Permutation_swap.
Qed.

Lemma sort_by_Permutation l : sort_by le l ≡ₚ l.
Proof.
  induction l as [|x l IH]; simpl; [done |].
  rewrite insert_by_Permutation. by rewrite IH.
Qed.

Hypothesis le_total : ∀ x y, le x y = true ∨ le y x = true.

Lemma insert_by_Sorted x l :
  Sorted (λ a b, le a b = true) l → Sorted (λ a b, le a b = true) (insert_by le x l).
Proof.
  induction 1 as [|y l Hl IH Hy]; simpl.
  - repeat constructor.
  - destruct (le x y) eqn:E.
    + repeat constructor; done.
    + constructor; [done |].
      destruct Hy as [|z l' Hz]; simpl.
      * constructor. destruct (le_total x y); congruence.
      * destruct (le x z); constructor; [| done].
        destruct (le_total x y); congruence.
Qed.

Lemma sort_by_Sorted l : Sorted (λ a b, le a b = true) (sort_by le l).
Proof.
  induction l as [|x l IH]; simpl; [constructor |].
  by apply insert_by_Sorted.
Qed.

End Sorting.

Lemma sorted_Permutation (l : list pystr) : sorted l ≡ₚ l.
Proof. apply sort_by_Permutation. Qed.

Lemma elem_of_sorted (l : list pystr) (x : pystr) : x ∈ sorted l ↔ x ∈ l.
Proof. by rewrite sorted_Permutation. Qed.

Lemma sorted_StronglySorted (l : list pystr) :
  NoDup l → StronglySorted str_lt (sorted l).
Proof.
  intros Hnd.
  assert (Hs : StronglySorted (λ a b, Py.leb a b = true) (sorted l)).
  { apply Sorted_StronglySorted.
    - intros a b c. apply PyFacts.leb_trans.
    - apply sort_by_Sorted, PyFacts.leb_total. }
  assert (Hd : NoDup (sorted l)) by (by rewrite sorted_Permutation).
  induction Hs as [|x s Hs IH Hx]; [constructor |].
  inversion Hd as [|? ? Hnx Hd']; subst.
  constructor; [by apply IH |].
  apply Forall_forall. intros y Hy. split.
  - rewrite Forall_forall in Hx. apply Hx. done.
  - intros ->. apply Hnx. by apply list_elem_of_In.
Qed.



(** ** Header normalisation *)

Section Headers.

Lemma clean_cols_lookup (cols : list pystr) (c : pystr) :
  c ∈ cols → clean_cols cols !! c = Some (canonical c).
Proof.
  unfold clean_cols.
  cut (∀ d : gmap pystr pystr,
         foldl (λ d col, <[col := canonical col]> d) d cols !! c
         = if decide (c ∈ cols) then Some (canonical c) else d !! c).
  { intros H Hin. rewrite H. by rewrite decide_True. }
  induction cols as [|x cols IH]; intros d; cbn [foldl].
  - rewrite decide_False; [done | by apply not_elem_of_nil].
  - rewrite IH. destruct (decide (c ∈ cols)) as [Hc|Hc].
    + rewrite decide_True; [done | by right].
    + destruct (decide (x = c)) as [->|Hne].
      * rewrite lookup_insert_eq. rewrite decide_True; [done | by left].
      * rewrite lookup_insert_ne by done.
        rewrite decide_False; [done |].
        intros [?|?]%elem_of_cons; congruence.
Qed.

(** The dictionary of lines 55-58 followed by [rename] is the header-wise
    application of [rename_map.get(key, col)]. *)
Lemma rename_clean_cols (cols : list pystr) :
  rename (clean_cols cols) cols = map canonical cols.
Proof.
  unfold rename. apply map_ext_in. intros c Hc.
  rewrite clean_cols_lookup; [done | by apply list_elem_of_In].
Qed.

Lemma normalize_columns_map (raw : list pystr) :
  normalize_columns raw = map (λ h, canonical (fix_column_name h)) raw.
Proof.
  unfold normalize_columns. rewrite rename_clean_cols. by rewrite map_map.
Qed.

Lemma normalize_columns_lookup (raw : list pystr) (i : nat) (h : pystr) :
  raw !! i = Some h →
  normalize_columns raw !! i = Some (canonical (fix_column_name h)).
Proof.
  intros H. rewrite normalize_columns_map.
  change (map ?f raw) with (f <$> raw). rewrite list_lookup_fmap, H. done.
Qed.

Lemma rename_map_values (k v : pystr) :
  rename_map !! k = Some v → v ∈ canonical_names.
Proof.
  intros H. unfold rename_map in H. apply elem_of_list_to_map_2 in H.
  repeat (apply elem_of_cons in H as [H|H];
          [ injection H as -> ->; apply list_elem_of_In; simpl; tauto | ]).
  by apply elem_of_nil in H.
Qed.

End Headers.

(** C4.  A raw header is first trimmed and rid of byte-order marks and
    no-break spaces; when the key of the result (lower case, spaces and
    underscores removed) is one of the keys of [rename_map], the header
    comes out as the canonical name stored under that key, which is one of
    the eight canonical names; when the key is unknown, the rename leaves
    the trimmed header as it is. *)
Theorem normalize_columns_canonical (raw : list pystr) (i : nat) (h : pystr) :
  raw !! i = Some h →
  (∀ canon, rename_map !! norm_key (fix_column_name h) = Some canon →
     normalize_columns raw !! i = Some canon ∧ canon ∈ canonical_names)
  ∧ (rename_map !! norm_key (fix_column_name h) = None →
     normalize_columns raw !! i = Some (fix_column_name h)).
Proof.
  intros H. apply normalize_columns_lookup in H. unfold canonical in H.
  split.
  - intros canon Hk. rewrite Hk in H. split; [done |].
    by eapply rename_map_values.
  - intros Hk. by rewrite Hk in H.
Qed.

Lemma normalize_columns_canonical_witness :
  normalize_columns [u " Channel Name "; u "Net_Weight_KGs"] !! 0%nat
    = Some (u "ChannelName")
  ∧ normalize_columns [u " Channel Name "; u "Net_Weight_KGs"] !! 1%nat
    = Some (u "NetWeightKGs").
Proof.
  split.
  - apply (normalize_columns_canonical
             [u " Channel Name "; u "Net_Weight_KGs"] 0 (u " Channel Name ") eq_refl).
    vm_compute. reflexivity.
  - apply (normalize_columns_canonical
             [u " Channel Name "; u "Net_Weight_KGs"] 1 (u "Net_Weight_KGs") eq_refl).
    vm_compute. reflexivity.
Defined.

(** The scenario of the specification, and a header that no key matches. *)
Example normalize_columns_scenario :
  normalize_columns [u " Channel Name "; u "Net_Weight_KGs"; u " Region "]
  = [u "ChannelName"; u "NetWeightKGs"; u "Region"].
Proof. vm_compute. reflexivity. Qed.

(** Mixed case, underscores, a byte-order mark and a no-break space. *)
Example normalize_columns_variants :
  normalize_columns
    [ BOM :: u "DATE"; u "Product" ++ [NBSP] ++ u "Name";
      u "  SALES_category"; u "payment type"; u "Customer__NAME " ]
  = [ u "Date"; u "ProductName"; u "SalesCategory"; u "PaymentType";
      u "CustomerName" ].
Proof. vm_compute. reflexivity. Qed.

(** C10.  Two headers at different positions whose keys select the same
    entry of [rename_map] both come out as that canonical name: the result
    has as many labels as the input, and the label is in it twice. *)
Theorem normalize_columns_collision
    (raw : list pystr) (i j : nat) (h1 h2 canon : pystr) :
  i ≠ j →
  raw !! i = Some h1 →
  raw !! j = Some h2 →
  rename_map !! norm_key (fix_column_name h1) = Some canon →
  rename_map !! norm_key (fix_column_name h2) = Some canon →
  normalize_columns raw !! i = Some canon
  ∧ normalize_columns raw !! j = Some canon
  ∧ ¬ NoDup (normalize_columns raw)
  ∧ length (normalize_columns raw) = length raw.
Proof.
  intros Hij H1 H2 K1 K2.
  pose proof (normalize_columns_lookup _ _ _ H1) as E1.
  pose proof (normalize_columns_lookup _ _ _ H2) as E2.
  unfold canonical in E1, E2. rewrite K1 in E1. rewrite K2 in E2. simpl in *.
  repeat split; try done.
  - intros Hnd. apply Hij. by eapply NoDup_lookup.
  - rewrite normalize_columns_map. apply length_map.
Qed.

Lemma normalize_columns_collision_witness :
  normalize_columns [u " Channel Name "; u "channel_name"] !! 0%nat
    = Some (u "ChannelName")
  ∧ normalize_columns [u " Channel Name "; u "channel_name"] !! 1%nat
    = Some (u "ChannelName")
  ∧ ¬ NoDup (normalize_columns [u " Channel Name "; u "channel_name"])
  ∧ length (normalize_columns [u " Channel Name "; u "channel_name"]) = 2%nat.
Proof.
  apply (normalize_columns_collision
           [u " Channel Name "; u "channel_name"] 0 1
           (u " Channel Name ") (u "channel_name") (u "ChannelName")).
  - lia.
  - reflexivity.
  - reflexivity.
  - vm_compute. reflexivity.
  - vm_compute. reflexivity.
Defined.

(** ** The cleaning stage *)

Ltac key_ne := solve [ intros Hkey; vm_compute in Hkey; discriminate Hkey ].

Ltac look :=
  repeat first
    [ rewrite lookup_insert_eq
    | rewrite lookup_insert_ne by key_ne ].

Lemma foldl_map_rows {A C} (g : C → A → A) (cs : list C) (l : list A) :
  foldl (λ l c, map (g c) l) l cs = map (λ r, foldl (λ r c, g c r) r cs) l.
Proof.
  revert l. induction cs as [|c cs IH]; intros l; simpl.
  - by rewrite map_id.
  - by rewrite IH, map_map.
Qed.

Section CleanFacts.

Variable L : Lib.

Lemma col_insert_eq (c : pystr) (v : cell) (r : row) : col c (<[c := v]> r) = v.
Proof. unfold col. by rewrite lookup_insert_eq. Qed.

Lemma col_insert_ne (c k : pystr) (v : cell) (r : row) :
  k ≠ c → col c (<[k := v]> r) = col c r.
Proof. intros. unfold col. by rewrite lookup_insert_ne. Qed.

(** The backfill adds a missing-value marker only where [col] already
    reads one. *)
Lemma col_backfill_row (c : pystr) (r : row) : col c (backfill_row r) = col c r.
Proof.
  unfold backfill_row. generalize required. intros cs.
  revert r. induction cs as [|k cs IH]; intros r; simpl; [done |].
  rewrite IH. destruct (decide (r !! k = None)) as [Hk|]; [| done].
  unfold col. destruct (decide (k = c)) as [->|].
  - by rewrite lookup_insert_eq, Hk.
  - by rewrite lookup_insert_ne.
Qed.

Lemma lookup_backfill_row (c : pystr) (r : row) :
  backfill_row r !! c = if decide (c ∈ required ∧ r !! c = None) then Some NaN else r !! c.
Proof.
  unfold backfill_row. generalize required. intros cs.
  revert r. induction cs as [|k cs IH]; intros r; cbn [foldl].
  - rewrite decide_False; [done |]. by intros [?%elem_of_nil _].
  - rewrite IH. destruct (decide (r !! k = None)) as [Hk|Hk].
    + destruct (decide (k = c)) as [->|Hne].
      * rewrite lookup_insert_eq. rewrite decide_False by (by intros [_ ?]).
        rewrite decide_True; [done |]. split; [by left | done].
      * rewrite lookup_insert_ne by done.
        apply decide_ext. rewrite elem_of_cons. intuition congruence.
    + destruct (decide (k = c)) as [->|Hne].
      * rewrite !decide_False; [done | |]; by intros [_ ?].
      * apply decide_ext. rewrite elem_of_cons. intuition congruence.
Qed.

Lemma backfill_row_id (r : row) :
  (∀ c, c ∈ required → is_Some (r !! c)) → backfill_row r = r.
Proof.
  intros H. apply map_eq. intros c. rewrite lookup_backfill_row.
  destruct (decide _) as [[Hc Hn]|]; [| done].
  apply H in Hc as [? ?]. congruence.
Qed.

Lemma backfill_map (df : list row) : backfill df = map backfill_row df.
Proof. unfold backfill, backfill_row. apply foldl_map_rows. Qed.

Lemma fix_text_map (df : list row) :
  fix_text L df
  = map (λ r, foldl (λ r c, <[c := str_strip (fillna (Str []) (astype_str L (col c r)))]> r)
                    r text_columns) df.
Proof. unfold fix_text, assign. apply foldl_map_rows. Qed.

Lemma drop_invalid_filter (df : list row) : drop_invalid df = filter keep_row df.
Proof. unfold drop_invalid. cbn zeta. by rewrite !list_filter_filter. Qed.

Lemma derive_map (df : list row) : derive df = map derive_row df.
Proof. unfold derive, assign. by rewrite map_map. Qed.

(** The stage is row-wise: lines 68-93 map and filter the rows. *)
Lemma clean_rows (df : list row) :
  clean L df
  = map derive_row
      (unique (filter keep_row (map (coerce_row L (map (col Date) df)) df))).
Proof.
  unfold clean, drop_duplicates.
  rewrite derive_map, drop_invalid_filter, fix_text_map, backfill_map.
  unfold fix_numeric, fix_date, assign. cbn zeta.
  assert (E : map (col Date) (map backfill_row df) = map (col Date) df).
  { rewrite map_map. apply map_ext. intros r. apply col_backfill_row. }
  rewrite E, !map_map. unfold coerce_row. reflexivity.
Qed.

Section Coerced.
Variables (column : list cell) (r : row).

Let r' := coerce_row L column r.

Lemma coerce_row_date :
  r' !! Date = Some (to_datetime L column (col Date r)).
Proof.
  unfold r', coerce_row, text_columns. cbn [foldl]. look.
  by rewrite col_backfill_row.
Qed.

Lemma coerce_row_weight :
  r' !! NetWeightKGs = Some (fillna (Num 0%Qc) (to_numeric L (col NetWeightKGs r))).
Proof.
  unfold r', coerce_row, text_columns. cbn [foldl]. look.
  rewrite col_insert_ne by key_ne. by rewrite col_backfill_row.
Qed.

Lemma coerce_row_text (c : pystr) :
  c ∈ text_columns →
  r' !! c = Some (str_strip (fillna (Str []) (astype_str L (col c r)))).
Proof.
  intros Hc. unfold text_columns in Hc.
  repeat (apply elem_of_cons in Hc as [->|Hc]);
    [ | | | | by apply elem_of_nil in Hc ];
    unfold r', coerce_row, text_columns; cbn [foldl]; look;
    rewrite ?col_insert_ne by key_ne; by rewrite col_backfill_row.
Qed.

Lemma coerce_row_other (c : pystr) :
  c ∉ required → r' !! c = r !! c.
Proof.
  intros Hc. unfold r', coerce_row, text_columns. cbn [foldl].
  rewrite !lookup_insert_ne.
  - rewrite lookup_backfill_row. rewrite decide_False; [done |]. by intros [? _].
  - intros <-. apply Hc. apply list_elem_of_In. vm_compute. tauto.
  - intros <-. apply Hc. apply list_elem_of_In. vm_compute. tauto.
  - intros <-. apply Hc. apply list_elem_of_In. vm_compute. tauto.
  - intros <-. apply Hc. apply list_elem_of_In. vm_compute. tauto.
  - intros <-. apply Hc. apply list_elem_of_In. vm_compute. tauto.
  - intros <-. apply Hc. apply list_elem_of_In. vm_compute. tauto.
Qed.

End Coerced.

End CleanFacts.

Section CleanedRows.

Variable L : Lib.

Lemma to_datetime_cases (column : list cell) (c : cell) :
  to_datetime L column c = NaT ∨ ∃ t, to_datetime L column c = Stamp t.
Proof.
  destruct c; simpl; eauto.
  - destruct (parse_datetime L column s); simpl; eauto.
  - destruct (datetime_of_number L x); simpl; eauto.
Qed.

Lemma to_numeric_cases (c : cell) :
  to_numeric L c = NaN ∨ ∃ x, to_numeric L c = Num x.
Proof.
  destruct c; simpl; eauto.
  destruct (parse_numeric L s); simpl; eauto.
Qed.

(** Line 76 leaves a number in every row: the coerced value, or 0. *)
Lemma numeric_coercion (c : cell) :
  (∃ x, to_numeric L c = Num x ∧ fillna (Num 0%Qc) (to_numeric L c) = Num x)
  ∨ (to_numeric L c = NaN ∧ fillna (Num 0%Qc) (to_numeric L c) = Num 0%Qc).
Proof.
  destruct (to_numeric_cases c) as [E | [x E]]; rewrite E; simpl; eauto.
Qed.

(** Line 81 leaves stripped text in every row; [fillna] finds nothing to
    fill, [astype(str)] having turned every element into a string. *)
Lemma text_coercion (c : cell) :
  ∃ s, astype_str L c = Str s
       ∧ str_strip (fillna (Str []) (astype_str L c)) = Str (Py.strip s).
Proof. destruct c; simpl; eauto. Qed.

Lemma text_columns_required (c : pystr) : c ∈ text_columns → c ∈ required.
Proof.
  intros H. apply list_elem_of_In in H. apply list_elem_of_In.
  simpl in *. tauto.
Qed.

Lemma lookup_derive_row_ne (c : pystr) (r : row) :
  c ≠ Month → c ≠ Day → derive_row r !! c = r !! c.
Proof. intros. unfold derive_row. cbn zeta. by rewrite !lookup_insert_ne. Qed.

Lemma col_derive_row_ne (c : pystr) (r : row) :
  c ≠ Month → c ≠ Day → col c (derive_row r) = col c r.
Proof. intros. unfold col. by rewrite lookup_derive_row_ne. Qed.

Lemma text_columns_ne (c : pystr) : c ∈ text_columns → c ≠ Month ∧ c ≠ Day.
Proof.
  intros Hc. unfold text_columns in Hc.
  repeat (apply elem_of_cons in Hc as [->|Hc]);
    [ | | | | by apply elem_of_nil in Hc ]; split; key_ne.
Qed.

(** A row that passes the filters of lines 84-86 leaves the stage as a
    cleaned row. *)
Lemma derive_coerce_cleaned (column : list cell) (r : row) :
  keep_row (coerce_row L column r) →
  cleaned_row (derive_row (coerce_row L column r)).
Proof.
  intros [[Hch Hpr] Hd].
  pose proof (coerce_row_date L column r) as Ed.
  pose proof (coerce_row_weight L column r) as Ew.
  pose proof (coerce_row_text L column r) as Et.
  set (r' := coerce_row L column r) in *.
  assert (Hdate : ∃ t, r' !! Date = Some (Stamp t)).
  { unfold col at 1 in Hd. rewrite Ed in *. cbn [default] in Hd.
    destruct (to_datetime_cases column (col Date r)) as [E | [t E]];
      rewrite E in *; [discriminate Hd | eauto]. }
  split.
  - rewrite lookup_derive_row_ne by key_ne. done.
  - rewrite lookup_derive_row_ne by key_ne. rewrite Ew.
    destruct (numeric_coercion (col NetWeightKGs r)) as [(x & _ & ->) | [_ ->]]; eauto.
  - intros c Hc. destruct (text_columns_ne c Hc).
    rewrite lookup_derive_row_ne by done. rewrite Et by done.
    destruct (text_coercion (col c r)) as (s & _ & ->).
    eexists. split; [done |]. apply PyFacts.strip_idemp.
  - by rewrite col_derive_row_ne by key_ne.
  - by rewrite col_derive_row_ne by key_ne.
  - unfold derive_row. cbn zeta. rewrite lookup_insert_ne by key_ne.
    rewrite lookup_insert_eq. f_equal. f_equal.
    unfold col. by rewrite !lookup_insert_ne by key_ne.
  - unfold derive_row. cbn zeta. rewrite lookup_insert_eq. f_equal. f_equal.
    unfold col. by rewrite !lookup_insert_ne by key_ne.
Qed.

Lemma elem_of_clean (df : list row) (r' : row) :
  r' ∈ clean L df ↔
  ∃ r, r ∈ df
       ∧ keep_row (coerce_row L (map (col Date) df) r)
       ∧ r' = derive_row (coerce_row L (map (col Date) df) r).
Proof.
  rewrite clean_rows.
  change (map derive_row ?l) with (derive_row <$> l).
  rewrite list_elem_of_fmap. setoid_rewrite elem_of_unique.
  setoid_rewrite list_elem_of_filter.
  change (map ?f df) with (f <$> df) at 1.
  setoid_rewrite list_elem_of_fmap.
  split.
  - intros (r0 & -> & Hk & r & -> & Hr). eauto.
  - intros (r & Hr & Hk & ->). eauto 10.
Qed.

Lemma clean_Forall_cleaned (df : list row) : Forall cleaned_row (clean L df).
Proof.
  apply Forall_forall. intros r' Hr'. apply list_elem_of_In in Hr'.
  apply elem_of_clean in Hr' as (r & _ & Hk & ->).
  by apply derive_coerce_cleaned.
Qed.

(** The [Month] of a cleaned row is the label of its [Date]. *)
Lemma clean_month_label (df : list row) (r : row) :
  r ∈ clean L df →
  ∃ t, r !! Date = Some (Stamp t) ∧ r !! Month = Some (Str (month_label t)).
Proof.
  intros Hr. pose proof (clean_Forall_cleaned df) as H.
  rewrite Forall_forall in H. apply list_elem_of_In, H in Hr.
  destruct (cr_date r Hr) as [t Ht]. exists t. split; [done |].
  rewrite (cr_month r Hr). unfold col. by rewrite Ht.
Qed.

End CleanedRows.

Section Idempotence.

Variable L : Lib.

Lemma filter_Forall_id {A} (P : A → Prop) `{∀ x, Decision (P x)} (l : list A) :
  Forall P l → filter P l = l.
Proof.
  induction 1 as [|x l Hx _ IH]; [done |].
  rewrite filter_cons, decide_True by done. by rewrite IH.
Qed.

Lemma cleaned_row_required (r : row) (c : pystr) :
  cleaned_row r → c ∈ required → is_Some (r !! c).
Proof.
  intros Hr Hc. unfold required in Hc.
  assert (Ht : ∀ k, k ∈ text_columns → is_Some (r !! k)).
  { intros k Hk. destruct (cr_text r Hr k Hk) as (s & -> & _). eauto. }
  repeat (apply elem_of_cons in Hc as [->|Hc]);
    [ | | | | | | by apply elem_of_nil in Hc ].
  - apply Ht, list_elem_of_In. simpl. tauto.
  - apply Ht, list_elem_of_In. simpl. tauto.
  - destruct (cr_date r Hr) as [t ->]. eauto.
  - destruct (cr_weight r Hr) as [x ->]. eauto.
  - apply Ht, list_elem_of_In. simpl. tauto.
  - apply Ht, list_elem_of_In. simpl. tauto.
Qed.

Lemma text_insert_id (r : row) (c : pystr) (s : pystr) :
  r !! c = Some (Str s) → Py.strip s = s →
  <[c := str_strip (fillna (Str []) (astype_str L (col c r)))]> r = r.
Proof.
  intros Hc Hs. apply insert_id. unfold col. rewrite Hc. simpl. by rewrite Hs.
Qed.

(** On a cleaned row the coercions of lines 68-81 change nothing. *)
Lemma cleaned_row_coerce (column : list cell) (r : row) :
  cleaned_row r → coerce_row L column r = r.
Proof.
  intros Hr. unfold coerce_row. cbn zeta.
  rewrite backfill_row_id by (intros c; by apply cleaned_row_required).
  destruct (cr_date r Hr) as [t Ht]. destruct (cr_weight r Hr) as [x Hx].
  rewrite (insert_id r Date) by (unfold col; by rewrite Ht).
  rewrite (insert_id r NetWeightKGs) by (unfold col; by rewrite Hx).
  unfold text_columns. cbn [foldl].
  destruct (cr_text r Hr ChannelName) as (s1 & E1 & S1);
    [apply list_elem_of_In; simpl; tauto |].
  destruct (cr_text r Hr ProductCategory) as (s2 & E2 & S2);
    [apply list_elem_of_In; simpl; tauto |].
  destruct (cr_text r Hr ProductName) as (s3 & E3 & S3);
    [apply list_elem_of_In; simpl; tauto |].
  destruct (cr_text r Hr SalesCategory) as (s4 & E4 & S4);
    [apply list_elem_of_In; simpl; tauto |].
  rewrite (text_insert_id r ChannelName s1) by done.
  rewrite (text_insert_id r ProductCategory s2) by done.
  rewrite (text_insert_id r ProductName s3) by done.
  by rewrite (text_insert_id r SalesCategory s4) by done.
Qed.

Lemma cleaned_row_keep (r : row) : cleaned_row r → keep_row r.
Proof.
  intros Hr. repeat split.
  - apply (cr_channel r Hr).
  - apply (cr_product r Hr).
  - destruct (cr_date r Hr) as [t Ht]. unfold col. by rewrite Ht.
Qed.

Lemma cleaned_row_derive (r : row) : cleaned_row r → derive_row r = r.
Proof.
  intros Hr. unfold derive_row. cbn zeta.
  rewrite (insert_id r Month) by apply (cr_month r Hr).
  rewrite (insert_id r Day) by apply (cr_day r Hr). done.
Qed.

(** On a table of cleaned rows the stage only drops repeated rows. *)
Lemma clean_of_cleaned (T : list row) :
  Forall cleaned_row T → clean L T = unique T.
Proof.
  intros HT. rewrite clean_rows.
  assert (E : map (coerce_row L (map (col Date) T)) T = T).
  { rewrite <- (map_id T) at 3. apply map_ext_in. intros r Hr.
    apply cleaned_row_coerce. rewrite Forall_forall in HT. by apply HT. }
  rewrite E.
  rewrite filter_Forall_id
    by (eapply List.Forall_impl; [apply cleaned_row_keep | exact HT]).
  rewrite <- (map_id (unique T)) at 2. apply map_ext_in. intros r Hr.
  apply cleaned_row_derive. rewrite Forall_forall in HT. apply HT.
  apply list_elem_of_In. apply list_elem_of_In in Hr.
  by rewrite elem_of_unique in Hr.
Qed.

(** A second run returns the cleaned table exactly when no row of it is
    repeated. *)
Lemma clean_clean_iff (df : list row) :
  clean L (clean L df) = clean L df ↔ NoDup (clean L df).
Proof.
  rewrite clean_of_cleaned by apply clean_Forall_cleaned.
  apply unique_id_iff.
Qed.

Lemma derive_row_inj (r1 r2 : row) :
  r1 !! Month = None → r1 !! Day = None →
  r2 !! Month = None → r2 !! Day = None →
  derive_row r1 = derive_row r2 → r1 = r2.
Proof.
  intros M1 D1 M2 D2 E.
  assert (F : ∀ r : row, r !! Month = None → r !! Day = None →
              delete Month (delete Day (derive_row r)) = r).
  { intros r M D. unfold derive_row. cbn zeta.
    rewrite delete_insert_eq, delete_insert_ne by key_ne.
    rewrite delete_insert_eq, delete_id; [by apply delete_id |].
    by rewrite lookup_delete_ne by key_ne. }
  rewrite <- (F r1), <- (F r2) by done. by rewrite E.
Qed.

Lemma NoDup_clean (df : list row) :
  Forall (λ r, r !! Month = None ∧ r !! Day = None) df → NoDup (clean L df).
Proof.
  intros Hdf. rewrite clean_rows.
  change (map derive_row ?l) with (derive_row <$> l).
  apply NoDup_fmap_2_strong; [| apply NoDup_unique].
  assert (H : ∀ x, x ∈ unique (filter keep_row
                     (map (coerce_row L (map (col Date) df)) df)) →
              x !! Month = None ∧ x !! Day = None).
  { intros x Hx. apply elem_of_unique, list_elem_of_filter in Hx as [_ Hx].
    change (map ?f df) with (f <$> df) in Hx.
    apply list_elem_of_fmap in Hx as (r & -> & Hr).
    rewrite Forall_forall in Hdf. apply list_elem_of_In, Hdf in Hr.
    rewrite !coerce_row_other; [done | |];
      intros Hin%list_elem_of_In; vm_compute in Hin;
      repeat (destruct Hin as [Hin|Hin]; [discriminate Hin |]); done. }
  intros x y Hx Hy. apply H in Hx as [??], Hy as [??].
  by apply derive_row_inj.
Qed.

(** The filters of lines 84-86 do not look at the weight. *)
Lemma keep_row_any_weight (column : list cell) (r : row) (w : cell) :
  keep_row (coerce_row L column (<[NetWeightKGs := w]> r))
  ↔ keep_row (coerce_row L column r).
Proof.
  unfold keep_row, col.
  rewrite !coerce_row_date, !coerce_row_text
    by (apply list_elem_of_In; simpl; tauto).
  unfold col. by rewrite !lookup_insert_ne by key_ne.
Qed.

End Idempotence.

(** *** Claims on the cleaning stage *)

(** C1 (as amended).  Every row of the cleaned table comes from a row of the
    input whose [Date] the date coercion turned into a timestamp, which is
    the row's [Date]; its [NetWeightKGs] is a number and never the
    missing-value marker: the value of the numeric coercion where it has
    one, whatever its sign, and 0 where it has none. *)
Theorem clean_weight_date (L : Lib) (df : list row) (r' : row) :
  r' ∈ clean L df →
  ∃ r, r ∈ df
    ∧ (∃ t, to_datetime L (map (col Date) df) (col Date r) = Stamp t
            ∧ r' !! Date = Some (Stamp t))
    ∧ ((∃ x, to_numeric L (col NetWeightKGs r) = Num x
             ∧ r' !! NetWeightKGs = Some (Num x))
       ∨ (to_numeric L (col NetWeightKGs r) = NaN
          ∧ r' !! NetWeightKGs = Some (Num 0%Qc))).
Proof.
  intros (r & Hr & [_ Hd] & ->)%elem_of_clean.
  exists r. split; [done |].
  rewrite !lookup_derive_row_ne by key_ne.
  rewrite coerce_row_date, coerce_row_weight.
  unfold col at 1 in Hd. rewrite coerce_row_date in Hd. cbn [default] in Hd.
  split.
  - destruct (to_datetime_cases L (map (col Date) df) (col Date r)) as [E | [t E]];
      rewrite E in *; [discriminate Hd | eauto].
  - destruct (numeric_coercion L (col NetWeightKGs r)) as [(x & E & ->) | [E ->]];
      eauto.
Qed.

Lemma clean_weight_date_witness :
  ∃ r, r ∈ example_table
    ∧ (∃ t, to_datetime Iso.lib (map (col Date) example_table) (col Date r) = Stamp t
            ∧ default ∅ (clean Iso.lib example_table !! 2%nat) !! Date
              = Some (Stamp t))
    ∧ ((∃ x, to_numeric Iso.lib (col NetWeightKGs r) = Num x
             ∧ default ∅ (clean Iso.lib example_table !! 2%nat) !! NetWeightKGs
               = Some (Num x))
       ∨ (to_numeric Iso.lib (col NetWeightKGs r) = NaN
          ∧ default ∅ (clean Iso.lib example_table !! 2%nat) !! NetWeightKGs
            = Some (Num 0%Qc))).
Proof.
  apply (clean_weight_date Iso.lib example_table).
  apply default_lookup_elem_of. apply Nat.ltb_lt. vm_compute. reflexivity.
Defined.

(** A negative weight goes through the stage unchanged. *)
Lemma negative_weight_retained :
  col NetWeightKGs <$> clean Iso.lib negative_weight_table = [Num (qz (-5))]
  ∧ ¬ (0 ≤ qz (-5))%Qc.
Proof.
  split.
  - vm_compute. reflexivity.
  - intros H. vm_compute in H. by apply H.
Qed.

(** The scenarios of the specification: an unreadable date drops the row,
    an unreadable weight becomes 0 and the row stays. *)
Example clean_example_table :
  (λ r, (col ChannelName r, col Date r, col NetWeightKGs r))
    <$> clean Iso.lib example_table
  = [ (text "A", Stamp {| year := 2024; month := 1; day := 5; nanos := 0 |}, Num (qz 1));
      (text "B", Stamp {| year := 2024; month := 1; day := 6; nanos := 0 |}, Num (qz 5));
      (text "C", Stamp {| year := 2024; month := 2; day := 6; nanos := 0 |}, Num (qz 0)) ].
Proof. vm_compute. reflexivity. Qed.

(** C2.  What lines 80-86 do with a missing [ChannelName]: [astype(str)]
    has made the text [nan] of it before [fillna] runs, so the row is kept,
    its [ChannelName] being that text. *)
Theorem missing_channel_kept :
  (∀ L, str_strip (fillna (Str []) (astype_str L NaN)) = text "nan")
  ∧ (λ r, (col ChannelName r, col ProductName r))
      <$> clean Iso.lib missing_channel_table
    = [ (text "nan", text "P") ].
Proof. split; [done |]. vm_compute. reflexivity. Qed.

(** X9.  What does hold of the text columns: they hold stripped text, and
    [ChannelName] and [ProductName] are never empty. *)
Lemma clean_text (L : Lib) (df : list row) (r : row) (c : pystr) :
  r ∈ clean L df → c ∈ text_columns →
  (∃ s, r !! c = Some (Str s) ∧ Py.strip s = s)
  ∧ col ChannelName r ≠ Str [] ∧ col ProductName r ≠ Str [].
Proof.
  intros Hr Hc.
  pose proof (clean_Forall_cleaned L df) as H. rewrite Forall_forall in H.
  apply list_elem_of_In, H in Hr.
  repeat split; [by apply (cr_text r Hr) | apply (cr_channel r Hr) | apply (cr_product r Hr)].
Qed.

(** C5 (as amended).  On a table that has no column named [Month] or [Day]
    before it is cleaned, cleaning the cleaned table returns it unchanged. *)
Theorem clean_idempotent (L : Lib) (df : list row) :
  Forall (λ r, r !! Month = None ∧ r !! Day = None) df →
  clean L (clean L df) = clean L df.
Proof. intros H. by apply clean_clean_iff, NoDup_clean. Qed.

Lemma clean_idempotent_witness :
  clean Iso.lib (clean Iso.lib example_table) = clean Iso.lib example_table.
Proof.
  apply (clean_idempotent Iso.lib example_table).
  repeat constructor.
Defined.

(** Two rows that differ in a [Month] column of the input are both kept by
    line 89, made equal by line 92, and one of them is dropped on the
    second run. *)
Lemma clean_not_idempotent :
  clean Iso.lib (clean Iso.lib month_column_table)
  ≠ clean Iso.lib month_column_table.
Proof.
  intros H. apply (f_equal length) in H. vm_compute in H. discriminate H.
Qed.

Example clean_month_column_lengths :
  length (clean Iso.lib month_column_table) = 2%nat
  ∧ length (clean Iso.lib (clean Iso.lib month_column_table)) = 1%nat.
Proof. split; vm_compute; reflexivity. Qed.

(** ** Aggregations *)




Section Groups.

Context {A K : Type} `{EqDecision K}.
Variables (key : A → option K) (w : A → Qc).


End Groups.

Lemma groupby_sum_keys (c : pystr) (T : list row) :
  (groupby_sum c T).*1 = sorted (unique (omap (label_of c) T)).
Proof.
  unfold groupby_sum. change (fmap fst ?l) with (map fst l).
  rewrite map_map. simpl. apply map_id.
Qed.

Lemma groupby_sum_values (c : pystr) (T : list row) :
  (groupby_sum c T).*2
  = map (λ k, qsum (map weight (filter (λ r, label_of c r = Some k) T)))
        (sorted (unique (omap (label_of c) T))).
Proof.
  unfold groupby_sum. change (fmap snd ?l) with (map snd l).
  by rewrite map_map.
Qed.


Lemma sort_values_desc_Permutation (s : Series) : sort_values_desc s ≡ₚ s.
Proof. apply sort_by_Permutation. Qed.


(** The labels of a cleaned row. *)
Lemma cleaned_row_label (r : row) (c : pystr) :
  cleaned_row r → c ∈ text_columns ∨ c = Month → is_Some (label_of c r).
Proof.
  intros Hr [Hc | ->]; unfold label_of.
  - destruct (cr_text r Hr c Hc) as (s & -> & _). eauto.
  - rewrite (cr_month r Hr). destruct (cr_date r Hr) as [t Ht].
    unfold col. rewrite Ht. simpl. eauto.
Qed.

Lemma clean_labels (L : Lib) (df : list row) (c : pystr) :
  c ∈ text_columns ∨ c = Month →
  Forall (λ r, is_Some (label_of c r)) (clean L df).
Proof.
  intros Hc. eapply List.Forall_impl; [| apply clean_Forall_cleaned].
  intros r Hr. by apply cleaned_row_label.
Qed.


Example example_totals :
  groupby_sum ChannelName (clean Iso.lib example_table)
    = [ (u "A", qz 1); (u "B", qz 5); (u "C", qz 0) ]
  ∧ total_sales (clean Iso.lib example_table) = qz 6.
Proof. split; vm_compute; reflexivity. Qed.

(** ** Charts *)

Lemma label_of_Some (c : pystr) (r : row) (s : pystr) :
  label_of c r = Some s ↔ r !! c = Some (Str s).
Proof.
  unfold label_of. destruct (r !! c) as [[]|]; split; intros [=]; by subst.
Qed.

Lemma elem_of_labels (c : pystr) (T : list row) (s : pystr) :
  s ∈ sorted (unique (omap (label_of c) T)) ↔ ∃ r, r ∈ T ∧ r !! c = Some (Str s).
Proof.
  rewrite elem_of_sorted, elem_of_unique, list_elem_of_omap.
  by setoid_rewrite label_of_Some.
Qed.

Lemma fig_month_xs (T : list row) :
  xs (fig_month T) = sorted (unique (omap (label_of Month) T)).
Proof.
  unfold fig_month, reindex. simpl. change (fmap fst ?l) with (map fst l).
  rewrite map_map. simpl. apply map_id.
Qed.

Lemma lookup_groupby_sum (c : pystr) (T : list row) (k : pystr) :
  k ∈ sorted (unique (omap (label_of c) T)) →
  (list_to_map (groupby_sum c T) : gmap pystr Qc) !! k
  = Some (qsum (map weight (filter (λ r, label_of c r = Some k) T))).
Proof.
  intros Hk. apply elem_of_list_to_map_1.
  - rewrite groupby_sum_keys, sorted_Permutation. apply NoDup_unique.
  - unfold groupby_sum. change (map ?f ?l) with (f <$> l).
    apply list_elem_of_fmap. eauto.
Qed.

(** The line of the month chart: [reindex] finds every month of
    [month_order] in the grouped sums, so each month carries its own sum. *)
Lemma fig_month_ys (T : list row) :
  ys (fig_month T)
  = map (λ m, Some (qsum (map weight (filter (λ r, label_of Month r = Some m) T))))
        (xs (fig_month T)).
Proof.
  rewrite fig_month_xs. unfold fig_month, reindex. simpl.
  change (fmap snd ?l) with (map snd l). rewrite map_map. simpl.
  apply map_ext_in. intros m Hm. apply lookup_groupby_sum.
  by apply list_elem_of_In.
Qed.

(** C6.  The x axis of the month chart lists the [Month] labels of the
    cleaned table, each once, in strictly ascending order of the labels;
    the summed weights play no part in the order, and each month is drawn
    with its own sum. *)
Theorem fig_month_axis (L : Lib) (df : list row) :
  StronglySorted str_lt (xs (fig_month (clean L df)))
  ∧ (∀ m, m ∈ xs (fig_month (clean L df))
          ↔ ∃ r, r ∈ clean L df ∧ r !! Month = Some (Str m))
  ∧ ys (fig_month (clean L df))
    = map (λ m, Some (qsum (map weight
                  (filter (λ r, label_of Month r = Some m) (clean L df)))))
          (xs (fig_month (clean L df))).
Proof.
  split; [| split].
  - rewrite fig_month_xs. apply sorted_StronglySorted, NoDup_unique.
  - intros m. rewrite fig_month_xs. apply elem_of_labels.
  - apply fig_month_ys.
Qed.

(** The scenario of the specification, February outweighing January. *)
Example fig_month_two_months :
  xs (fig_month (clean Iso.lib two_months_table)) = [u "2024-01"; u "2024-02"]
  ∧ ys (fig_month (clean Iso.lib two_months_table)) = [Some (qz 1); Some (qz 100)].
Proof. split; vm_compute; reflexivity. Qed.

(** C3.  On a cleaned table without rows the four single charts have empty
    axes, and the interactive dashboard is not built: [unique_months] is
    empty and [unique_months[0]] raises [IndexError]. *)
Theorem build_charts_empty (L : Lib) :
  clean L [] = []
  ∧ xs (fig_channel (clean L [])) = [] ∧ xs (fig_month (clean L [])) = []
  ∧ xs (fig_salescat (clean L [])) = [] ∧ xs (fig_product (clean L [])) = []
  ∧ fig_filtered (clean L []) = inl IndexError
  ∧ build_charts (clean L []) = inl IndexError
  ∧ build_charts (clean Iso.lib
      [raw_row (text "C") (text "P") (text "not-a-date") (text "2.5")])
    = inl IndexError.
Proof. repeat split; vm_compute; reflexivity. Qed.

(** The dashboard is built exactly when the table has a month. *)
Lemma fig_filtered_error (T : list row) :
  fig_filtered T = inl IndexError ↔ omap (label_of Month) T = [].
Proof.
  unfold fig_filtered.
  destruct (sorted (unique (omap (label_of Month) T))) as [|m ms] eqn:E; simpl.
  - split; [intros _ | done].
    destruct (omap (label_of Month) T) as [|k ks] eqn:E'; [done |].
    assert (H : k ∈ sorted (unique (k :: ks)))
      by (rewrite elem_of_sorted, elem_of_unique; by left).
    rewrite E in H. by apply elem_of_nil in H.
  - split; [done |]. intros E'. rewrite E' in E. done.
Qed.

(** C7.  What lines 176-205 draw for January of the example table, where
    channel A sold 1 and channel B sold 5: the x array is the index of the
    grouped sums, in label order, and the y array is their values in
    descending order, so that A is drawn with the sum of B. *)
Theorem filtered_panel_misaligned :
  groupby_sum ChannelName (filter_month (clean Iso.lib example_table) (u "2024-01"))
    = [ (u "A", qz 1); (u "B", qz 5) ]
  ∧ (∃ fig, fig_filtered (clean Iso.lib example_table) = inr fig
       ∧ traces fig !! 0%nat
         = Some {| tx := [u "A"; u "B"]; ty := [qz 5; qz 1]; name := u "Channel" |}
       ∧ (λ b, (label b, args_x b !! 0%nat, args_y b !! 0%nat)) <$> buttons fig !! 0%nat
         = Some (u "2024-01", Some [u "A"; u "B"], Some [qz 5; qz 1]))
  ∧ (xs (fig_channel (clean Iso.lib example_table)),
     ys (fig_channel (clean Iso.lib example_table)))
    = ([u "B"; u "A"; u "C"], [Some (qz 5); Some (qz 1); Some (qz 0)]).
Proof.
  split; [vm_compute; reflexivity |]. split; [| vm_compute; reflexivity].
  eexists. split; [vm_compute; reflexivity |].
  split; vm_compute; reflexivity.
Qed.

(** C8.  Pressing the button of a month puts into the three filtered
    panels the arrays computed from the rows of that month, and into the
    trend panel the arrays it already had: the grouped sums by month of the
    whole table. *)
Theorem update_keeps_trend (L : Lib) (df : list row) (fig : Figure) (b : Button) :
  fig_filtered (clean L df) = inr fig →
  b ∈ buttons fig →
  label b ∈ sorted (unique (omap (label_of Month) (clean L df)))
  ∧ traces (update b fig) !! 3%nat = traces fig !! 3%nat
  ∧ traces fig !! 3%nat
    = Some {| tx := (groupby_sum Month (clean L df)).*1;
              ty := (groupby_sum Month (clean L df)).*2;
              name := u "Trend" |}
  ∧ tx <$> traces (update b fig)
    = [ panel_x ChannelName (filter_month (clean L df) (label b));
        panel_x SalesCategory (filter_month (clean L df) (label b));
        panel_x ProductName (filter_month (clean L df) (label b));
        (groupby_sum Month (clean L df)).*1 ]
  ∧ ty <$> traces (update b fig)
    = [ panel_y ChannelName (filter_month (clean L df) (label b));
        panel_y SalesCategory (filter_month (clean L df) (label b));
        panel_y ProductName (filter_month (clean L df) (label b));
        (groupby_sum Month (clean L df)).*2 ].
Proof.
  generalize (clean L df). intros T. unfold fig_filtered.
  destruct (sorted (unique (omap (label_of Month) T)) !! 0%nat) as [m0|] eqn:E0;
    [| discriminate].
  intros [= <-] Hb. cbn [buttons] in Hb.
  change (map ?f ?l) with (f <$> l) in Hb.
  apply list_elem_of_fmap in Hb as (m & -> & Hm).
  repeat split; done.
Qed.

Lemma update_keeps_trend_witness :
  u "2024-02" ∈ sorted (unique (omap (label_of Month) (clean Iso.lib example_table)))
  ∧ (λ t, (tx t, ty t)) <$>
      traces (update (button_of (clean Iso.lib example_table) (u "2024-02"))
                (match fig_filtered (clean Iso.lib example_table) with
                 | inr f => f
                 | inl _ => {| traces := []; buttons := [] |}
                 end)) !! 3%nat
    = Some ([u "2024-01"; u "2024-02"], [qz 6; qz 0]).
Proof.
  destruct (update_keeps_trend Iso.lib example_table
              (match fig_filtered (clean Iso.lib example_table) with
               | inr f => f
               | inl _ => {| traces := []; buttons := [] |}
               end)
              (button_of (clean Iso.lib example_table) (u "2024-02")))
    as (H1 & H2 & H3 & _).
  - vm_compute. reflexivity.
  - apply list_elem_of_lookup. exists 1%nat. vm_compute. reflexivity.
  - split; [exact H1 |]. rewrite H2, H3. vm_compute. reflexivity.
Defined.

(** *** The order of the labels is the order of the calendar *)

Lemma digit_lt (x y : Z) : (digit x < digit y)%N ↔ (x `mod` 10 < y `mod` 10)%Z.
Proof.
  unfold digit.
  pose proof (Z.mod_pos_bound x 10). pose proof (Z.mod_pos_bound y 10). lia.
Qed.

Lemma digit_eq (x y : Z) : digit x = digit y ↔ (x `mod` 10 = y `mod` 10)%Z.
Proof.
  unfold digit.
  pose proof (Z.mod_pos_bound x 10). pose proof (Z.mod_pos_bound y 10). lia.
Qed.

Lemma year_digits (y : Z) :
  (0 ≤ y ≤ 9999)%Z →
  (y = 1000 * ((y `div` 1000) `mod` 10) + 100 * ((y `div` 100) `mod` 10)
       + 10 * ((y `div` 10) `mod` 10) + y `mod` 10)%Z.
Proof. intros. Z.div_mod_to_equations. lia. Qed.

Lemma month_digits (m : Z) :
  (0 ≤ m ≤ 99)%Z → (m = 10 * ((m `div` 10) `mod` 10) + m `mod` 10)%Z.
Proof. intros. Z.div_mod_to_equations. lia. Qed.

Lemma label_eq_iff (a b c d e f a' b' c' d' e' f' : N) :
  [a; b; c; d; 45; e; f] = [a'; b'; c'; d'; 45; e'; f']
  ↔ a = a' ∧ b = b' ∧ c = c' ∧ d = d' ∧ e = e' ∧ f = f'.
Proof.
  split; [intros [=]; auto 10 | intros (-> & -> & -> & -> & -> & ->); done].
Qed.

(** X20.  For the four-digit years of pandas timestamps, one label is below
    another exactly when its month is earlier. *)
Lemma month_label_chronological (t1 t2 : Timestamp) :
  (1000 ≤ year t1 ≤ 9999)%Z → (1000 ≤ year t2 ≤ 9999)%Z →
  (1 ≤ month t1 ≤ 12)%Z → (1 ≤ month t2 ≤ 12)%Z →
  str_lt (month_label t1) (month_label t2)
  ↔ (year t1 < year t2 ∨ (year t1 = year t2 ∧ month t1 < month t2))%Z.
Proof.
  destruct t1 as [y1 m1 d1 n1], t2 as [y2 m2 d2 n2]. cbn [year month].
  intros Hy1 Hy2 Hm1 Hm2. unfold str_lt, month_label. cbn [Py.leb year month].
  rewrite label_eq_iff.
  repeat rewrite ?orb_true_iff, ?andb_true_iff, ?N.ltb_lt, ?N.eqb_eq,
    ?digit_lt, ?digit_eq.
  pose proof (year_digits y1) as E1. pose proof (year_digits y2) as E2.
  pose proof (month_digits m1) as F1. pose proof (month_digits m2) as F2.
  pose proof (Z.mod_pos_bound (y1 `div` 1000) 10).
  pose proof (Z.mod_pos_bound (y1 `div` 100) 10).
  pose proof (Z.mod_pos_bound (y1 `div` 10) 10).
  pose proof (Z.mod_pos_bound y1 10).
  pose proof (Z.mod_pos_bound (m1 `div` 10) 10).
  pose proof (Z.mod_pos_bound m1 10).
  pose proof (Z.mod_pos_bound (y2 `div` 1000) 10).
  pose proof (Z.mod_pos_bound (y2 `div` 100) 10).
  pose proof (Z.mod_pos_bound (y2 `div` 10) 10).
  pose proof (Z.mod_pos_bound y2 10).
  pose proof (Z.mod_pos_bound (m2 `div` 10) 10).
  pose proof (Z.mod_pos_bound m2 10).
  generalize dependent ((y1 `div` 1000) `mod` 10)%Z.
  generalize dependent ((y1 `div` 100) `mod` 10)%Z.
  generalize dependent ((y1 `div` 10) `mod` 10)%Z.
  generalize dependent (y1 `mod` 10)%Z.
  generalize dependent ((m1 `div` 10) `mod` 10)%Z.
  generalize dependent (m1 `mod` 10)%Z.
  generalize dependent ((y2 `div` 1000) `mod` 10)%Z.
  generalize dependent ((y2 `div` 100) `mod` 10)%Z.
  generalize dependent ((y2 `div` 10) `mod` 10)%Z.
  generalize dependent (y2 `mod` 10)%Z.
  generalize dependent ((m2 `div` 10) `mod` 10)%Z.
  generalize dependent (m2 `mod` 10)%Z.
  intros. lia.
Qed.

(** * Further properties of the script *)

(** ** Header normalisation, run again *)

Lemma remove_char_id (c : N) (s : pystr) : c ∉ s → Py.remove_char c s = s.
Proof.
  intros Hc. unfold Py.remove_char. apply filter_Forall_id.
  apply Forall_forall. intros x Hx ->. by apply Hc, list_elem_of_In.
Qed.

Lemma elem_of_lstrip (x : N) (s : pystr) : x ∈ Py.lstrip s → x ∈ s.
Proof.
  induction s as [|c s IH]; simpl; [done |].
  destruct (Py.is_space c); [| done]. intros H. right. by apply IH.
Qed.

Lemma elem_of_strip (x : N) (s : pystr) : x ∈ Py.strip s → x ∈ s.
Proof.
  unfold Py.strip, Py.rstrip. rewrite elem_of_reverse. intros H.
  apply elem_of_lstrip in H. rewrite elem_of_reverse in H.
  by apply elem_of_lstrip.
Qed.

(** Without byte-order marks and no-break spaces, lines 35-40 only strip. *)
Lemma fix_column_name_strip (h : pystr) :
  BOM ∉ h → NBSP ∉ h → fix_column_name h = Py.strip h.
Proof.
  intros Hb Hn. unfold fix_column_name.
  rewrite (remove_char_id BOM) by (intros H; by apply Hb, elem_of_strip).
  apply remove_char_id. intros H. by apply Hn, elem_of_strip.
Qed.

(** The eight canonical names are fixed by both steps of the stage. *)
Lemma canonical_names_fixed (c : pystr) :
  c ∈ canonical_names → fix_column_name c = c ∧ canonical c = c.
Proof.
  intros Hc. unfold canonical_names in Hc.
  repeat (apply elem_of_cons in Hc as [->|Hc];
          [split; vm_compute; reflexivity |]).
  by apply elem_of_nil in Hc.
Qed.

Lemma canonical_in_names_or_same (c : pystr) :
  (∃ canon, rename_map !! norm_key c = Some canon
            ∧ canonical c = canon ∧ canon ∈ canonical_names)
  ∨ (rename_map !! norm_key c = None ∧ canonical c = c).
Proof.
  unfold canonical. destruct (rename_map !! norm_key c) as [canon|] eqn:E.
  - left. exists canon. split; [done |]. split; [done |]. by eapply rename_map_values.
  - by right.
Qed.

(** X1.  On headers that hold no byte-order mark and no no-break space,
    normalising the normalised headers changes nothing. *)
Theorem normalize_columns_idempotent (raw : list pystr) :
  Forall (λ h, (BOM ∉ h) ∧ (NBSP ∉ h)) raw →
  normalize_columns (normalize_columns raw) = normalize_columns raw.
Proof.
  intros Hraw. rewrite !normalize_columns_map, map_map.
  apply map_ext_in. intros h Hh. rewrite Forall_forall in Hraw.
  destruct (Hraw h Hh) as [Hb Hn].
  destruct (canonical_in_names_or_same (fix_column_name h))
    as [(canon & _ & -> & Hc) | [Hk ->]].
  - destruct (canonical_names_fixed canon Hc) as [-> ->]. done.
  - rewrite (fix_column_name_strip h) in * by done.
    assert (E : fix_column_name (Py.strip h) = Py.strip h).
    { rewrite fix_column_name_strip; [apply PyFacts.strip_idemp | |];
        intros H; [by apply Hb, elem_of_strip | by apply Hn, elem_of_strip]. }
    rewrite E. unfold canonical. by rewrite Hk.
Qed.

Lemma normalize_columns_idempotent_witness :
  normalize_columns
    (normalize_columns [u " Channel Name "; u "Net_Weight_KGs"; u " Region "])
  = normalize_columns [u " Channel Name "; u "Net_Weight_KGs"; u " Region "].
Proof.
  apply normalize_columns_idempotent.
  repeat constructor; intros H; apply list_elem_of_In in H; vm_compute in H;
    repeat (destruct H as [H|H]; [discriminate H |]); exact H.
Defined.

(** A byte-order mark shields the space behind it from the strip of line
    37: the second run strips what the first run left. *)
Example normalize_columns_bom_space :
  normalize_columns [BOM :: u " Region"] = [u " Region"]
  ∧ normalize_columns (normalize_columns [BOM :: u " Region"]) = [u "Region"].
Proof. split; vm_compute; reflexivity. Qed.

(** X2.  A header that the first run renames to a canonical name keeps that
    name on every further run, whatever characters it held. *)
Theorem normalize_columns_stable (raw : list pystr) (i : nat) (h canon : pystr) :
  raw !! i = Some h →
  rename_map !! norm_key (fix_column_name h) = Some canon →
  normalize_columns (normalize_columns raw) !! i = Some canon.
Proof.
  intros Hi Hk.
  pose proof (normalize_columns_lookup raw i h Hi) as E.
  unfold canonical in E. rewrite Hk in E. simpl in E.
  rewrite (normalize_columns_lookup _ i canon E).
  f_equal. apply rename_map_values in Hk.
  by destruct (canonical_names_fixed canon Hk) as [-> ->].
Qed.

Lemma normalize_columns_stable_witness :
  normalize_columns (normalize_columns [BOM :: u " net_weight KGs "]) !! 0%nat
  = Some (u "NetWeightKGs").
Proof.
  apply (normalize_columns_stable [BOM :: u " net_weight KGs "] 0
           (BOM :: u " net_weight KGs ") (u "NetWeightKGs")).
  - reflexivity.
  - vm_compute. reflexivity.
Defined.

(** ** The cleaning stage: what comes out of what goes in *)

Section UniqueMore.
Context {A : Type} `{EqDecision A}.
Implicit Types (l seen : list A).

Lemma unique_from_sublist seen l : unique_from seen l `sublist_of` l.
Proof.
  revert seen. induction l as [|x l IH]; intros seen; simpl.
  - constructor.
  - destruct (decide (x ∈ seen)); [apply sublist_cons | apply sublist_skip];
      apply IH.
Qed.

Lemma length_unique_from_eq seen l :
  length (unique_from seen l) = length l → unique_from seen l = l.
Proof.
  revert seen. induction l as [|x l IH]; intros seen; simpl; [done |].
  destruct (decide (x ∈ seen)); simpl.
  - intros E. pose proof (sublist_length _ _ (unique_from_sublist seen l)). lia.
  - intros [= E]. f_equal. by apply IH.
Qed.

Lemma length_unique l : (length (unique l) ≤ length l)%nat.
Proof. apply sublist_length, unique_from_sublist. Qed.

Lemma length_unique_eq l : length (unique l) = length l ↔ NoDup l.
Proof.
  rewrite <- unique_id_iff. split; [apply length_unique_from_eq | by intros ->].
Qed.

(** The first occurrences among the images are images of a sublist. *)
Lemma unique_from_map {B} (f : B → A) seen (k : list B) :
  ∃ k', k' `sublist_of` k ∧ unique_from seen (map f k) = map f k'.
Proof.
  revert seen. induction k as [|x k IH]; intros seen; simpl.
  - exists []. split; [constructor | done].
  - destruct (decide (f x ∈ seen)).
    + destruct (IH seen) as (k' & Hk' & ->). exists k'.
      split; [by apply sublist_cons | done].
    + destruct (IH (f x :: seen)) as (k' & Hk' & ->). exists (x :: k').
      split; [by apply sublist_skip | done].
Qed.

End UniqueMore.

Lemma length_filter_eq {A} (P : A → Prop) `{∀ x, Decision (P x)} (l : list A) :
  length (filter P l) = length l ↔ Forall P l.
Proof.
  split; [| intros HF; by rewrite filter_Forall_id].
  induction l as [|x l IH]; [constructor |].
  rewrite filter_cons. destruct (decide (P x)); simpl.
  - intros [= E]. constructor; [done | by apply IH].
  - intros E. pose proof (length_filter P l). lia.
Qed.

Lemma filter_map {A B} (P : B → Prop) `{∀ x, Decision (P x)} (f : A → B) (l : list A) :
  filter P (map f l) = map f (filter (λ x, P (f x)) l).
Proof.
  induction l as [|x l IH]; [done |]. simpl. rewrite !filter_cons.
  destruct (decide (P (f x))); simpl; by rewrite IH.
Qed.

Section CleanTable.

Variable L : Lib.

(** X3.  The cleaned table has at most as many rows as the input has
    distinct rows, which are at most as many as the input has rows. *)
Theorem clean_length (df : list row) :
  (length (clean L df) ≤ length (unique df) ≤ length df)%nat.
Proof.
  split; [| apply length_unique].
  rewrite clean_rows, length_map.
  rewrite <- (length_map (coerce_row L (map (col Date) df)) (unique df)).
  apply submseteq_length, NoDup_submseteq; [apply NoDup_unique |].
  intros x Hx. apply elem_of_unique, list_elem_of_filter in Hx as [_ Hx].
  change (map ?f ?l) with (f <$> l) in *.
  apply list_elem_of_fmap in Hx as (r & -> & Hr).
  apply list_elem_of_fmap. exists r. split; [done |]. by apply elem_of_unique.
Qed.

(** X4.  The cleaned table has as many rows as the input exactly when
    every coerced row passes the filters of lines 84-86 and no two coerced
    rows are equal. *)
Theorem clean_length_eq (df : list row) :
  length (clean L df) = length df
  ↔ Forall keep_row (map (coerce_row L (map (col Date) df)) df)
    ∧ NoDup (map (coerce_row L (map (col Date) df)) df).
Proof.
  rewrite clean_rows, length_map.
  set (C := map (coerce_row L (map (col Date) df)) df).
  assert (HC : length C = length df) by apply length_map.
  pose proof (length_unique (filter keep_row C)) as H1.
  pose proof (length_filter keep_row C) as H2.
  split.
  - intros E.
    assert (E2 : length (filter keep_row C) = length C) by lia.
    assert (E1 : length (unique (filter keep_row C)) = length (filter keep_row C))
      by lia.
    apply length_filter_eq in E2. apply length_unique_eq in E1.
    rewrite (filter_Forall_id _ _ E2) in E1. done.
  - intros [HF HN]. rewrite (filter_Forall_id _ _ HF).
    apply length_unique_eq in HN. lia.
Qed.

(** X5.  The cleaned table lists the images of the surviving input rows in
    the order of the input. *)
Theorem clean_keeps_order (df : list row) :
  ∃ kept, kept `sublist_of` df
    ∧ clean L df
      = map (λ r, derive_row (coerce_row L (map (col Date) df) r)) kept.
Proof.
  rewrite clean_rows, filter_map. unfold unique.
  destruct (unique_from_map (coerce_row L (map (col Date) df)) []
              (filter (λ r, keep_row (coerce_row L (map (col Date) df) r)) df))
    as (kept & Hs & ->).
  exists kept. split.
  - etrans; [exact Hs | apply sublist_filter].
  - by rewrite map_map.
Qed.

(** X6.  A column that is none of the six required ones, nor [Month] or
    [Day], reaches the cleaned table as it was in the input row. *)
Theorem clean_passthrough (df : list row) (r' : row) :
  r' ∈ clean L df →
  ∃ r, r ∈ df ∧ ∀ c, c ∉ required → c ≠ Month → c ≠ Day → r' !! c = r !! c.
Proof.
  intros (r & Hr & _ & ->)%elem_of_clean. exists r. split; [done |].
  intros c Hc Hm Hd. rewrite lookup_derive_row_ne by done.
  by apply coerce_row_other.
Qed.

(** What the filters of lines 84-86 test, on the cells of the input row. *)
Lemma keep_row_coerce (column : list cell) (r : row) :
  keep_row (coerce_row L column r)
  ↔ (str_strip (fillna (Str []) (astype_str L (col ChannelName r))) ≠ Str []
     ∧ str_strip (fillna (Str []) (astype_str L (col ProductName r))) ≠ Str [])
    ∧ isna (to_datetime L column (col Date r)) = false.
Proof.
  assert (Et : ∀ c, c ∈ text_columns →
            col c (coerce_row L column r)
            = str_strip (fillna (Str []) (astype_str L (col c r)))).
  { intros c Hc. unfold col at 1. by rewrite coerce_row_text. }
  assert (Ed : col Date (coerce_row L column r) = to_datetime L column (col Date r)).
  { unfold col at 1. by rewrite coerce_row_date. }
  unfold keep_row. rewrite Ed, !Et by (apply list_elem_of_In; simpl; tauto).
  done.
Qed.

(** X7.  The image of an input row is in the cleaned table exactly when its
    date converts and its channel and product names, made text and
    stripped, are not empty. *)
Theorem clean_retains (df : list row) (r : row) :
  r ∈ df →
  derive_row (coerce_row L (map (col Date) df) r) ∈ clean L df
  ↔ (str_strip (fillna (Str []) (astype_str L (col ChannelName r))) ≠ Str []
     ∧ str_strip (fillna (Str []) (astype_str L (col ProductName r))) ≠ Str [])
    ∧ isna (to_datetime L (map (col Date) df) (col Date r)) = false.
Proof.
  intros Hr. rewrite <- keep_row_coerce, elem_of_clean. split.
  - intros (r2 & _ & Hk & E). unfold keep_row in *.
    rewrite <- (col_derive_row_ne ChannelName), <- (col_derive_row_ne ProductName),
      <- (col_derive_row_ne Date) by key_ne.
    rewrite <- (col_derive_row_ne ChannelName), <- (col_derive_row_ne ProductName),
      <- (col_derive_row_ne Date) in Hk by key_ne.
    by rewrite E.
  - intros Hk. eauto.
Qed.

(** X8.  In the cleaned table [Month] and [Day] are the label and the date
    of the row's own [Date]. *)
Theorem clean_derived (df : list row) (r : row) :
  r ∈ clean L df →
  ∃ t, r !! Date = Some (Stamp t)
       ∧ r !! Month = Some (Str (month_label t))
       ∧ r !! Day = Some (DayV (year t) (month t) (day t))
       ∧ length (month_label t) = 7%nat.
Proof.
  intros Hr. pose proof (clean_Forall_cleaned L df) as H.
  rewrite Forall_forall in H. apply list_elem_of_In, H in Hr.
  destruct (cr_date r Hr) as [t Ht]. exists t. split; [done |].
  rewrite (cr_month r Hr), (cr_day r Hr). unfold col. by rewrite Ht.
Qed.

(** X10.  When the input has no column named [Month] or [Day], no two rows
    of the cleaned table are equal. *)
Theorem clean_no_duplicates (df : list row) :
  Forall (λ r, r !! Month = None ∧ r !! Day = None) df →
  NoDup (clean L df)
  ∧ ∀ i j r, clean L df !! i = Some r → clean L df !! j = Some r → i = j.
Proof.
  intros H. pose proof (NoDup_clean L df H) as Hnd. split; [done |].
  intros i j r. by apply NoDup_lookup.
Qed.

End CleanTable.

Lemma clean_passthrough_witness :
  ∃ r, r ∈ extra_column_table
    ∧ ∀ c, c ∉ required → c ≠ Month → c ≠ Day →
        default ∅ (clean Iso.lib extra_column_table !! 0%nat) !! c = r !! c.
Proof.
  apply (clean_passthrough Iso.lib extra_column_table).
  apply default_lookup_elem_of. apply Nat.ltb_lt. vm_compute. reflexivity.
Defined.

Example clean_passthrough_example :
  (λ r, r !! u "PaymentType") <$> clean Iso.lib extra_column_table
  = [Some (text "Cash")].
Proof. vm_compute. reflexivity. Qed.

Lemma clean_retains_witness :
  derive_row (coerce_row Iso.lib (map (col Date) example_table)
                (raw_row (text "A") (text "P") (text "2024-01-05") (text "1")))
    ∈ clean Iso.lib example_table
  ↔ (str_strip (fillna (Str []) (astype_str Iso.lib
        (col ChannelName (raw_row (text "A") (text "P") (text "2024-01-05") (text "1")))))
       ≠ Str []
     ∧ str_strip (fillna (Str []) (astype_str Iso.lib
        (col ProductName (raw_row (text "A") (text "P") (text "2024-01-05") (text "1")))))
       ≠ Str [])
    ∧ isna (to_datetime Iso.lib (map (col Date) example_table)
              (col Date (raw_row (text "A") (text "P") (text "2024-01-05") (text "1"))))
      = false.
Proof.
  apply (clean_retains Iso.lib example_table).
  apply list_elem_of_lookup. exists 0%nat. reflexivity.
Defined.

Lemma clean_derived_witness :
  ∃ t, default ∅ (clean Iso.lib example_table !! 0%nat) !! Date = Some (Stamp t)
       ∧ default ∅ (clean Iso.lib example_table !! 0%nat) !! Month
         = Some (Str (month_label t))
       ∧ default ∅ (clean Iso.lib example_table !! 0%nat) !! Day
         = Some (DayV (year t) (month t) (day t))
       ∧ length (month_label t) = 7%nat.
Proof.
  apply (clean_derived Iso.lib example_table).
  apply default_lookup_elem_of. apply Nat.ltb_lt. vm_compute. reflexivity.
Defined.

Lemma clean_no_duplicates_witness :
  NoDup (clean Iso.lib example_table)
  ∧ ∀ i j r, clean Iso.lib example_table !! i = Some r →
             clean Iso.lib example_table !! j = Some r → i = j.
Proof.
  apply (clean_no_duplicates Iso.lib example_table).
  repeat constructor.
Defined.

Lemma clean_text_witness :
  (∃ s, default ∅ (clean Iso.lib example_table !! 1%nat) !! ChannelName = Some (Str s)
        ∧ Py.strip s = s)
  ∧ col ChannelName (default ∅ (clean Iso.lib example_table !! 1%nat)) ≠ Str []
  ∧ col ProductName (default ∅ (clean Iso.lib example_table !! 1%nat)) ≠ Str [].
Proof.
  apply (clean_text Iso.lib example_table).
  - apply default_lookup_elem_of. apply Nat.ltb_lt. vm_compute. reflexivity.
  - constructor.
Defined.

Lemma month_label_chronological_witness :
  str_lt (month_label {| year := 2023; month := 12; day := 31; nanos := 0 |})
         (month_label {| year := 2024; month := 1; day := 5; nanos := 0 |})
  ↔ (2023 < 2024 ∨ (2023 = 2024 ∧ 12 < 1))%Z.
Proof.
  apply (month_label_chronological
           {| year := 2023; month := 12; day := 31; nanos := 0 |}
           {| year := 2024; month := 1; day := 5; nanos := 0 |});
    simpl; lia.
Defined.

(** ** Grouped sums and single charts *)

Lemma col_Str_iff (c : pystr) (r : row) (s : pystr) :
  col c r = Str s ↔ r !! c = Some (Str s).
Proof.
  unfold col. destruct (r !! c) as [v|]; simpl; split; intros E;
    [by subst | by injection E | discriminate E | discriminate E].
Qed.

Lemma filter_label_of (c : pystr) (k : pystr) (T : list row) :
  filter (λ r, label_of c r = Some k) T = filter (λ r, r !! c = Some (Str k)) T.
Proof. apply list_filter_iff. intros r. apply label_of_Some. Qed.

Lemma filter_month_label_of (T : list row) (m : pystr) :
  filter_month T m = filter (λ r, label_of Month r = Some m) T.
Proof.
  unfold filter_month. apply list_filter_iff. intros r.
  by rewrite col_Str_iff, label_of_Some.
Qed.

Lemma elem_of_groupby_sum (c : pystr) (T : list row) (k : pystr) (v : Qc) :
  (k, v) ∈ groupby_sum c T
  ↔ k ∈ sorted (unique (omap (label_of c) T))
    ∧ v = total_sales (filter (λ r, r !! c = Some (Str k)) T).
Proof.
  unfold groupby_sum. change (map ?f ?l) with (f <$> l).
  rewrite list_elem_of_fmap. unfold total_sales. split.
  - intros (k' & [= -> ->] & Hk). by rewrite filter_label_of.
  - intros [Hk ->]. exists k. by rewrite filter_label_of.
Qed.

Lemma groupby_sum_keys_sorted (c : pystr) (T : list row) :
  StronglySorted str_lt (groupby_sum c T).*1.
Proof. rewrite groupby_sum_keys. apply sorted_StronglySorted, NoDup_unique. Qed.

(** X12.  On a cleaned table the grouped sums of a text column or of [Month]
    have one entry for each label that occurs in the column, the labels in
    strictly ascending order, and the value of a label is the total weight
    of the rows that carry it. *)
Theorem groupby_sum_groups (L : Lib) (df : list row) (c : pystr) :
  c ∈ text_columns ∨ c = Month →
  StronglySorted str_lt (groupby_sum c (clean L df)).*1
  ∧ (∀ k, k ∈ (groupby_sum c (clean L df)).*1
          ↔ ∃ r, r ∈ clean L df ∧ r !! c = Some (Str k))
  ∧ (∀ k v, (k, v) ∈ groupby_sum c (clean L df) →
       v = total_sales (filter (λ r, r !! c = Some (Str k)) (clean L df)))
  ∧ Forall (λ r, ∃ k, r !! c = Some (Str k)) (clean L df).
Proof.
  intros Hc. split; [apply groupby_sum_keys_sorted |]. split; [| split].
  - intros k. rewrite groupby_sum_keys. apply elem_of_labels.
  - intros k v Hkv. by apply elem_of_groupby_sum in Hkv as [_ ->].
  - eapply List.Forall_impl; [| apply (clean_labels L df c Hc)].
    intros r [k Hk]. exists k. by apply label_of_Some.
Qed.

Lemma groupby_sum_groups_witness :
  StronglySorted str_lt (groupby_sum ProductName (clean Iso.lib example_table)).*1
  ∧ (∀ k, k ∈ (groupby_sum ProductName (clean Iso.lib example_table)).*1
          ↔ ∃ r, r ∈ clean Iso.lib example_table ∧ r !! ProductName = Some (Str k))
  ∧ (∀ k v, (k, v) ∈ groupby_sum ProductName (clean Iso.lib example_table) →
       v = total_sales (filter (λ r, r !! ProductName = Some (Str k))
                          (clean Iso.lib example_table)))
  ∧ Forall (λ r, ∃ k, r !! ProductName = Some (Str k)) (clean Iso.lib example_table).
Proof.
  apply (groupby_sum_groups Iso.lib example_table ProductName).
  left. apply list_elem_of_In. simpl. tauto.
Defined.

Lemma sort_values_desc_Sorted (s : Series) :
  Sorted (λ a b, (b ≤ a)%Qc) (sort_values_desc s).*2.
Proof.
  apply (Sorted_fmap snd (λ a b : pystr * Qc, bool_decide (Qcle b.2 a.2) = true)).
  - intros x y H. by apply bool_decide_eq_true in H.
  - apply sort_by_Sorted. intros x y.
    destruct (Qc_le_total x.2 y.2) as [H|H]; [right | left];
      by apply bool_decide_eq_true.
Qed.


(** X21.  [reindex(month_order)] changes nothing: the month chart draws the
    grouped sums by month as they are, every month with a value. *)
Theorem fig_month_is_groupby (L : Lib) (df : list row) :
  xs (fig_month (clean L df)) = (groupby_sum Month (clean L df)).*1
  ∧ ys (fig_month (clean L df)) = Some <$> (groupby_sum Month (clean L df)).*2
  ∧ reindex (sorted (unique (omap (label_of Month) (clean L df))))
            (groupby_sum Month (clean L df))
    = (λ kv, (kv.1, Some kv.2)) <$> groupby_sum Month (clean L df).
Proof.
  generalize (clean L df). intros T.
  assert (E : reindex (sorted (unique (omap (label_of Month) T))) (groupby_sum Month T)
              = (λ kv, (kv.1, Some kv.2)) <$> groupby_sum Month T).
  { unfold reindex. unfold groupby_sum at 2.
    change (?f <$> map ?g ?l) with (map f (map g l)). rewrite map_map. simpl.
    apply map_ext_in. intros m Hm. f_equal.
    apply lookup_groupby_sum. by apply list_elem_of_In. }
  split; [| split; [| exact E]].
  - rewrite fig_month_xs. symmetry. apply groupby_sum_keys.
  - rewrite fig_month_ys, fig_month_xs, groupby_sum_values.
    change (?f <$> map ?g ?l) with (map f (map g l)). by rewrite map_map.
Qed.

(** ** The interactive dashboard *)

Section Dashboard.

Variable T : list row.

Let months := sorted (unique (omap (label_of Month) T)).

Lemma fig_filtered_inr (fig : Figure) :
  fig_filtered T = inr fig →
  ∃ m0, months !! 0%nat = Some m0
    ∧ fig = {| traces :=
                 [ {| tx := panel_x ChannelName (filter_month T m0);
                      ty := panel_y ChannelName (filter_month T m0);
                      name := u "Channel" |};
                   {| tx := panel_x SalesCategory (filter_month T m0);
                      ty := panel_y SalesCategory (filter_month T m0);
                      name := u "SalesCategory" |};
                   {| tx := panel_x ProductName (filter_month T m0);
                      ty := panel_y ProductName (filter_month T m0);
                      name := u "Product" |};
                   {| tx := (groupby_sum Month T).*1;
                      ty := (groupby_sum Month T).*2; name := u "Trend" |} ];
               buttons := map (button_of T) months |}.
Proof.
  unfold fig_filtered. fold months.
  destruct (months !! 0%nat) as [m0|]; [| discriminate].
  intros [= <-]. eauto.
Qed.

Lemma elem_of_buttons (fig : Figure) (b : Button) :
  fig_filtered T = inr fig → b ∈ buttons fig →
  ∃ m, m ∈ months ∧ b = button_of T m.
Proof.
  intros (m0 & _ & ->)%fig_filtered_inr Hb. cbn [buttons] in Hb.
  change (map ?f ?l) with (f <$> l) in Hb.
  apply list_elem_of_fmap in Hb as (m & -> & Hm). eauto.
Qed.

Lemma update_button_of (fig : Figure) (m : pystr) :
  fig_filtered T = inr fig →
  traces (update (button_of T m) fig)
  = [ {| tx := panel_x ChannelName (filter_month T m);
         ty := panel_y ChannelName (filter_month T m); name := u "Channel" |};
      {| tx := panel_x SalesCategory (filter_month T m);
         ty := panel_y SalesCategory (filter_month T m); name := u "SalesCategory" |};
      {| tx := panel_x ProductName (filter_month T m);
         ty := panel_y ProductName (filter_month T m); name := u "Product" |};
      {| tx := (groupby_sum Month T).*1;
         ty := (groupby_sum Month T).*2; name := u "Trend" |} ]
  ∧ buttons (update (button_of T m) fig) = buttons fig.
Proof. intros (m0 & _ & ->)%fig_filtered_inr. done. Qed.

Lemma trend_values :
  (groupby_sum Month T).*2 = map (λ m, total_sales (filter_month T m)) months.
Proof.
  rewrite groupby_sum_values. apply map_ext. intros m.
  by rewrite filter_month_label_of.
Qed.

Lemma button_labels : map label (map (button_of T) months) = months.
Proof. rewrite map_map. simpl. apply map_id. Qed.

End Dashboard.



Lemma cleaned_months_nil (T : list row) :
  Forall cleaned_row T → omap (label_of Month) T = [] → T = [].
Proof.
  intros HT E. destruct T as [|r T]; [done |].
  inversion HT as [|? ? Hr _]; subst.
  destruct (cleaned_row_label r Month Hr) as [m Hm]; [by right |].
  simpl in E. rewrite Hm in E. discriminate E.
Qed.

(** X16.  The interactive dashboard, and with it the chart-building stage,
    fails exactly when the cleaned table has no rows. *)
Theorem fig_filtered_fails_iff (L : Lib) (df : list row) :
  (fig_filtered (clean L df) = inl IndexError ↔ clean L df = [])
  ∧ (build_charts (clean L df) = inl IndexError ↔ clean L df = []).
Proof.
  assert (H : fig_filtered (clean L df) = inl IndexError ↔ clean L df = []).
  { rewrite fig_filtered_error. split.
    - apply cleaned_months_nil, clean_Forall_cleaned.
    - by intros ->. }
  split; [done |]. rewrite <- H. unfold build_charts.
  destruct (fig_filtered (clean L df)) as [[]|f]; split; done.
Qed.

(** X17.  When it is built, the dashboard has the four traces Channel,
    SalesCategory, Product and Trend, and one button for each month of the
    cleaned table, in strictly ascending order of the months; every button
    carries four x arrays and four y arrays. *)
Theorem fig_filtered_structure (L : Lib) (df : list row) (fig : Figure) :
  fig_filtered (clean L df) = inr fig →
  name <$> traces fig = [u "Channel"; u "SalesCategory"; u "Product"; u "Trend"]
  ∧ StronglySorted str_lt (label <$> buttons fig)
  ∧ (∀ m, m ∈ label <$> buttons fig
          ↔ ∃ r, r ∈ clean L df ∧ r !! Month = Some (Str m))
  ∧ Forall (λ b, length (args_x b) = 4%nat ∧ length (args_y b) = 4%nat)
           (buttons fig).
Proof.
  intros (m0 & _ & ->)%fig_filtered_inr. cbn [traces buttons].
  change (?f <$> map ?g ?l) with (map f (map g l)).
  rewrite button_labels.
  split; [done |]. split; [apply sorted_StronglySorted, NoDup_unique |].
  split; [intros m; apply elem_of_labels |].
  apply Forall_forall. intros b Hb. apply list_elem_of_In in Hb.
  change (map ?f ?l) with (f <$> l) in Hb.
  by apply list_elem_of_fmap in Hb as (m & -> & _).
Qed.

(** X13.  The trend trace has one point for each button, in the order of
    the buttons: the month of the button, with the total weight of the rows
    that the button's month filter selects. *)
Theorem trend_matches_buttons (L : Lib) (df : list row) (fig : Figure) :
  fig_filtered (clean L df) = inr fig →
  ∃ trend, traces fig !! 3%nat = Some trend
    ∧ tx trend = label <$> buttons fig
    ∧ ty trend
      = (λ b, total_sales (filter_month (clean L df) (label b))) <$> buttons fig.
Proof.
  intros (m0 & _ & ->)%fig_filtered_inr. eexists. split; [done |].
  cbn [tx ty buttons].
  change (?f <$> map ?g ?l) with (map f (map g l)).
  rewrite button_labels, map_map, trend_values. cbn [label button_of].
  split; [apply groupby_sum_keys | done].
Qed.


(** X15.  In every button each filtered panel lists exactly the categories
    that have a row in the button's month, in strictly ascending order, its
    values are in descending order, and there are as many values as
    categories. *)
Theorem button_panels (L : Lib) (df : list row) (fig : Figure) (b : Button) :
  fig_filtered (clean L df) = inr fig →
  b ∈ buttons fig →
  Forall2 (λ c cats,
             StronglySorted str_lt cats
             ∧ ∀ k, k ∈ cats
                    ↔ ∃ r, r ∈ clean L df ∧ r !! Month = Some (Str (label b))
                           ∧ r !! c = Some (Str k))
          panel_columns (take 3 (args_x b))
  ∧ Forall (Sorted (λ v w, (w ≤ v)%Qc)) (take 3 (args_y b))
  ∧ length <$> args_x b = length <$> args_y b.
Proof.
  intros Hfig Hb.
  destruct (elem_of_buttons _ _ _ Hfig Hb) as (m & _ & ->).
  cbn [args_x args_y label button_of take].
  assert (HX : ∀ c, StronglySorted str_lt (panel_x c (filter_month (clean L df) m))
             ∧ ∀ k, k ∈ panel_x c (filter_month (clean L df) m)
                    ↔ ∃ r, r ∈ clean L df ∧ r !! Month = Some (Str m)
                           ∧ r !! c = Some (Str k)).
  { intros c. split; [apply groupby_sum_keys_sorted |].
    intros k. unfold panel_x. rewrite groupby_sum_keys, elem_of_labels.
    unfold filter_month. setoid_rewrite list_elem_of_filter.
    setoid_rewrite col_Str_iff.
    split; [intros (r & [? ?] & ?) | intros (r & ? & ? & ?)]; exists r; tauto. }
  assert (HL : ∀ c T, length (panel_x c T) = length (panel_y c T)).
  { intros c T. unfold panel_x, panel_y.
    rewrite !length_fmap. symmetry.
    apply Permutation_length, sort_values_desc_Permutation. }
  split; [| split].
  - unfold panel_columns. repeat constructor; apply HX.
  - repeat constructor; apply sort_values_desc_Sorted.
  - cbn [fmap list_fmap]. rewrite !HL, !length_fmap. done.
Qed.

(** X18.  The figure is first drawn as the button of the earliest month
    redraws it: pressing the first button changes nothing. *)
Theorem first_button_is_initial (L : Lib) (df : list row) (fig : Figure) :
  fig_filtered (clean L df) = inr fig →
  ∃ b, buttons fig !! 0%nat = Some b
       ∧ update b fig = fig
       ∧ ∀ b', b' ∈ buttons fig → label b = label b' ∨ str_lt (label b) (label b').
Proof.
  intros Hfig. destruct (fig_filtered_inr _ _ Hfig) as (m0 & Hm0 & ->).
  exists (button_of (clean L df) m0). cbn [buttons].
  change (map ?f ?l) with (f <$> l). rewrite list_lookup_fmap, Hm0.
  split; [done |]. split; [done |].
  intros b' (m & -> & Hm)%list_elem_of_fmap. cbn [label button_of].
  pose proof (sorted_StronglySorted (unique (omap (label_of Month) (clean L df)))
                (NoDup_unique _)) as HS.
  destruct (sorted (unique (omap (label_of Month) (clean L df)))) as [|x l];
    [discriminate Hm0 |].
  injection Hm0 as ->. apply elem_of_cons in Hm as [->|Hm]; [by left | right].
  inversion HS as [|? ? _ Hall]; subst. rewrite Forall_forall in Hall.
  by apply Hall, list_elem_of_In.
Qed.

(** X19.  The figure shows the month of the button pressed last: a second
    button overrides the first, and pressing a button twice is pressing it
    once. *)
Theorem last_button_wins (L : Lib) (df : list row) (fig : Figure) (b1 b2 : Button) :
  fig_filtered (clean L df) = inr fig →
  b1 ∈ buttons fig → b2 ∈ buttons fig →
  update b2 (update b1 fig) = update b2 fig
  ∧ update b1 (update b1 fig) = update b1 fig.
Proof.
  intros Hfig H1 H2.
  destruct (elem_of_buttons _ _ _ Hfig H1) as (m1 & _ & ->).
  destruct (elem_of_buttons _ _ _ Hfig H2) as (m2 & _ & ->).
  destruct (fig_filtered_inr _ _ Hfig) as (m0 & _ & ->). done.
Qed.

Lemma fig_filtered_structure_witness :
  name <$> traces example_figure
    = [u "Channel"; u "SalesCategory"; u "Product"; u "Trend"]
  ∧ StronglySorted str_lt (label <$> buttons example_figure)
  ∧ (∀ m, m ∈ label <$> buttons example_figure
          ↔ ∃ r, r ∈ clean Iso.lib example_table ∧ r !! Month = Some (Str m))
  ∧ Forall (λ b, length (args_x b) = 4%nat ∧ length (args_y b) = 4%nat)
           (buttons example_figure).
Proof.
  apply (fig_filtered_structure Iso.lib example_table example_figure).
  vm_compute. reflexivity.
Defined.

Lemma trend_matches_buttons_witness :
  ∃ trend, traces example_figure !! 3%nat = Some trend
    ∧ tx trend = label <$> buttons example_figure
    ∧ ty trend
      = (λ b, total_sales (filter_month (clean Iso.lib example_table) (label b)))
          <$> buttons example_figure.
Proof.
  apply (trend_matches_buttons Iso.lib example_table example_figure).
  vm_compute. reflexivity.
Defined.


Lemma button_panels_witness :
  Forall2 (λ c cats,
             StronglySorted str_lt cats
             ∧ ∀ k, k ∈ cats
                    ↔ ∃ r, r ∈ clean Iso.lib example_table
                           ∧ r !! Month = Some (Str (label example_button))
                           ∧ r !! c = Some (Str k))
          panel_columns (take 3 (args_x example_button))
  ∧ Forall (Sorted (λ v w, (w ≤ v)%Qc)) (take 3 (args_y example_button))
  ∧ length <$> args_x example_button = length <$> args_y example_button.
Proof.
  apply (button_panels Iso.lib example_table example_figure example_button).
  - vm_compute. reflexivity.
  - apply list_elem_of_lookup. exists 1%nat. vm_compute. reflexivity.
Defined.

Lemma first_button_is_initial_witness :
  ∃ b, buttons example_figure !! 0%nat = Some b
       ∧ update b example_figure = example_figure
       ∧ ∀ b', b' ∈ buttons example_figure →
               label b = label b' ∨ str_lt (label b) (label b').
Proof.
  apply (first_button_is_initial Iso.lib example_table example_figure).
  vm_compute. reflexivity.
Defined.

Lemma last_button_wins_witness :
  update example_button
    (update (button_of (clean Iso.lib example_table) (u "2024-01")) example_figure)
  = update example_button example_figure
  ∧ update (button_of (clean Iso.lib example_table) (u "2024-01"))
      (update (button_of (clean Iso.lib example_table) (u "2024-01")) example_figure)
    = update (button_of (clean Iso.lib example_table) (u "2024-01")) example_figure.
Proof.
  apply (last_button_wins Iso.lib example_table example_figure).
  - vm_compute. reflexivity.
  - apply list_elem_of_lookup. exists 0%nat. vm_compute. reflexivity.
  - apply list_elem_of_lookup. exists 1%nat. vm_compute. reflexivity.
Defined.
